(** * Serial packet transport and task-list parser of the LVGL task panel

    A shallow embedding of [applications/lv_test.c]: the additive checksum,
    the packet field extractor, the task display, the task-list parser, the
    packet validator/dispatcher, the selection buttons and the byte-wise UART
    reassembler, followed by the properties established about them.

    Conventions.
    - A C string (a [const char *] argument, a [char] array holding text) is
      the list of its characters up to, and not including, the terminating
      NUL.  The UART accumulation buffer is the one place where raw bytes,
      NUL included, are stored; there the C-string view is taken explicitly
      with [cstr].
    - A C [int] is a [Z]; arithmetic that can leave the 32-bit range is
      wrapped with [int_wrap].  Offsets into strings and array indices are
      [nat].
    - Whether plain [char] is signed is fixed by the ABI, not by the source;
      it is the section variable [plain_char_signed].  The board built by
      [applications/main.c] is a Cortex-M7 (Arm EABI), where plain [char] is
      unsigned.
    - A function that can store through a pointer past the end of an array
      returns an [outcome]: [OutOfBounds] for such a run, of which nothing
      more is said, [Done] with its result otherwise. *)

From Stdlib Require Import ZArith List Bool Lia.
From Stdlib.Strings Require Import String Byte.
From stdpp Require Import base list.
Import ListNotations.

(** ** Characters *)

Definition bytes (s : string) : list byte := list_byte_of_string s.

Definition uchar (c : byte) : Z := Z.of_N (Byte.to_N c).

Definition INT_MAX : Z := 2147483647.
Definition INT_MIN : Z := -2147483648.

(** Two's-complement wrap-around of a 32-bit [int]. *)
Definition int_wrap (z : Z) : Z := ((z + 2147483648) mod 4294967296 - 2147483648)%Z.

(** Value of a plain [char] after integer promotion. *)
Definition char_to_int (plain_char_signed : bool) (c : byte) : Z :=
  if plain_char_signed && (128 <=? uchar c)%Z then (uchar c - 256)%Z else uchar c.

(** What [s[i]] reads from a C string: the character, or the terminator at
    [i = strlen s]. *)
Definition char_at (s : list byte) (i : nat) : byte := nth i s "000"%byte.

(** ** String services of the C library and of the RT-Thread kernel

    [strstr], [strchr], [strtok], [atoi] and the [rt_] string services are
    called by the application and defined outside it; each is rendered
    here by its documented behaviour on C strings. *)

Definition rt_strlen (s : list byte) : nat := length s.

Fixpoint bytes_eqb (a b : list byte) : bool :=
  match a, b with
  | [], [] => true
  | x :: a', y :: b' => Byte.eqb x y && bytes_eqb a' b'
  | _, _ => false
  end.

(** [rt_strcmp]: zero exactly on equal strings.  The callers only test the
    result against zero, so the sign and size of a non-zero result are not
    represented. *)
Definition rt_strcmp (cs ct : list byte) : Z :=
  if bytes_eqb cs ct then 0%Z else 1%Z.

(** [starts_with needle s]: the characters of [needle] are the first
    characters of [s]. *)
Fixpoint starts_with (needle s : list byte) : bool :=
  match needle, s with
  | [], _ => true
  | _ :: _, [] => false
  | p :: needle', c :: s' => Byte.eqb p c && starts_with needle' s'
  end.

(** [strstr haystack needle]: offset of the first occurrence, [None] for a
    null result. *)
Fixpoint strstr (haystack needle : list byte) : option nat :=
  match haystack with
  | [] => if starts_with needle [] then Some 0 else None
  | _ :: rest =>
      if starts_with needle haystack then Some 0
      else option_map S (strstr rest needle)
  end.

(** [strchr s c] for a non-NUL [c]: offset of its first occurrence. *)
Fixpoint strchr (s : list byte) (c : byte) : option nat :=
  match s with
  | [] => None
  | x :: rest => if Byte.eqb x c then Some 0 else option_map S (strchr rest c)
  end.

(** [rt_strncpy dst src n] copies at most [n] characters and pads with
    NULs up to [n].  At every call site [dst[n]] is NUL afterwards (the
    array was zeroed and is longer than [n], or the caller writes the
    terminator), so the destination reads as the first [n] characters of
    [src]. *)
Definition rt_strncpy (src : list byte) (n : nat) : list byte := take n src.

(** [rt_snprintf buf size "%s%s" a b] and [rt_snprintf buf size "%s:" a]:
    the formatted text cut to [size - 1] characters. *)
Definition rt_snprintf_s_s (size : nat) (a b : list byte) : list byte :=
  take (size - 1) (a ++ b).

Definition rt_snprintf_s_colon (size : nat) (a : list byte) : list byte :=
  take (size - 1) (a ++ bytes ":").

(** The sequence of tokens that successive [strtok] calls return: maximal
    runs of non-delimiter characters, in order; empty runs are never
    returned. *)
Definition is_delim (delims : list byte) (c : byte) : bool :=
  existsb (Byte.eqb c) delims.

Fixpoint split_fields (delims s : list byte) : list (list byte) :=
  match s with
  | [] => [[]]
  | c :: rest =>
      if is_delim delims c then [] :: split_fields delims rest
      else match split_fields delims rest with
           | t :: ts => (c :: t) :: ts
           | [] => [[c]]
           end
  end.

Definition is_empty_str (s : list byte) : bool :=
  match s with [] => true | _ => false end.

Definition strtok_all (s delims : list byte) : list (list byte) :=
  List.filter (fun t => negb (is_empty_str t)) (split_fields delims s).

(** [atoi]: optional white space, optional sign, decimal digits; the value
    saturates at the limits of [int] (32-bit [long] [strtol]). *)
Definition isspace (c : byte) : bool :=
  (uchar c =? 32)%Z || ((9 <=? uchar c)%Z && (uchar c <=? 13)%Z).

Definition digit_val (c : byte) : option Z :=
  if (48 <=? uchar c)%Z && (uchar c <=? 57)%Z then Some (uchar c - 48)%Z else None.

Fixpoint skip_space (s : list byte) : list byte :=
  match s with
  | c :: rest => if isspace c then skip_space rest else s
  | [] => []
  end.

Fixpoint atoi_digits (acc : Z) (s : list byte) : Z :=
  match s with
  | c :: rest =>
      match digit_val c with
      | Some d => atoi_digits (acc * 10 + d)%Z rest
      | None => acc
      end
  | [] => acc
  end.

Definition int_saturate (z : Z) : Z := Z.max INT_MIN (Z.min INT_MAX z).

Definition atoi (s : list byte) : Z :=
  match skip_space s with
  | c :: rest =>
      if Byte.eqb c "-"%byte then int_saturate (- atoi_digits 0 rest)
      else if Byte.eqb c "+"%byte then int_saturate (atoi_digits 0 rest)
      else int_saturate (atoi_digits 0 (c :: rest))
  | [] => 0%Z
  end.

(** [rt_snprintf] with [%d]: the decimal digits of an [int], with a minus
    sign before them when it is negative.  An [int] has at most ten
    digits. *)
Definition digit_char (d : Z) : byte :=
  match Byte.of_N (Z.to_N (48 + d)) with
  | Some b => b
  | None => "0"%byte
  end.

Fixpoint dec_digits (fuel : nat) (n : Z) (acc : list byte) : list byte :=
  match fuel with
  | O => acc
  | S fuel' =>
      let acc' := digit_char (n mod 10) :: acc in
      if (n <? 10)%Z then acc' else dec_digits fuel' (n / 10) acc'
  end.

Definition format_int (n : Z) : list byte :=
  if (n <? 0)%Z then "-"%byte :: dec_digits 10 (- n) [] else dec_digits 10 n [].

(** ** Writes outside an array

    What a function leaves behind: [Done a] when all its writes stay inside
    the arrays they address, [OutOfBounds] when one does not; nothing is
    said of the program after such a write. *)
Inductive outcome (A : Type) : Type :=
| Done (a : A)
| OutOfBounds.

Arguments Done {A} a.
Arguments OutOfBounds {A}.

(** ** Protocol constants *)

Definition UART_MSG_MAX_SIZE : nat := 1024.
Definition UART_RX_BUFFER_SIZE : nat := 2048.
Definition MAX_TASK_COUNT : nat := 20.

Definition PKT_START : list byte := bytes "<PKT_START>".
Definition PKT_END : list byte := bytes "<PKT_END>".
Definition PKT_DELIMITER : list byte := bytes "|".
Definition DATA_DELIMITER : list byte := bytes ",".

(** ** Checksum and field extraction *)

Section Target.
Variable plain_char_signed : bool.

(** [while ( *data) sum += *data++; return sum % 256;] *)
Definition calculate_checksum (data : list byte) : Z :=
  Z.rem
    (fold_left (fun sum c => int_wrap (sum + char_to_int plain_char_signed c))
               data 0%Z)
    256.

Definition verify_checksum (type data : list byte) (received_checksum : Z) : bool :=
  let combined := rt_snprintf_s_s 1024 type data in
  let calculated := calculate_checksum combined in
  (calculated =? received_checksum)%Z.
End Target.

(** [extract_packet_field packet field_name output max_len]: the returned
    list is the text left in [output]. *)
Definition extract_packet_field (packet field_name : list byte) (max_len : nat)
  : list byte :=
  let search_str := rt_snprintf_s_colon 32 field_name in
  match strstr packet search_str with
  | None => []
  | Some pos =>
      let start := drop (pos + rt_strlen search_str) packet in
      let end_ :=
        match strstr start PKT_DELIMITER with
        | Some e => Some e
        | None => strstr start PKT_END
        end in
      match end_ with
      | None => []
      | Some len =>
          let len := if max_len <=? len then max_len - 1 else len in
          rt_strncpy start len
      end
  end.

(** ** Task table *)

Record task_info_t := mk_task_info {
  title : list byte;
  list_name : list byte;
  list_num : Z;
  task_num : Z;
  is_valid : bool
}.

(** A slot after [rt_memset (.., 0, ..)] and [is_valid = false]. *)
Definition empty_task : task_info_t := mk_task_info [] [] 0 0 false.

(** The globals shared by the parser, the dispatcher and the buttons. *)
Record app_state := mk_app_state {
  task_info_array : list task_info_t;
  current_task_count : Z;
  selected_task_index : Z
}.

Definition set_count (st : app_state) (n : Z) : app_state :=
  mk_app_state (task_info_array st) n (selected_task_index st).

Definition set_selected (st : app_state) (i : Z) : app_state :=
  mk_app_state (task_info_array st) (current_task_count st) i.

(** State at start-up: static initialisers and the clearing loop of
    [lvgl_thread_entry]. *)
Definition initial_state : app_state :=
  mk_app_state (replicate MAX_TASK_COUNT empty_task) 0 1.

(** ** Task-list parser *)

Definition is_blank (c : byte) : bool :=
  Byte.eqb c " "%byte || Byte.eqb c "009"%byte.

Fixpoint skip_blank (s : list byte) : list byte :=
  match s with
  | c :: rest => if is_blank c then skip_blank rest else s
  | [] => []
  end.

Fixpoint strip_trailing_blank (s : list byte) : list byte :=
  match s with
  | [] => []
  | c :: rest =>
      match strip_trailing_blank rest with
      | [] => if is_blank c then [] else [c]
      | kept => c :: kept
      end
  end.

(** The two trimming loops at the head of the token loop; the second one
    stops at [end > token], so the first character is never erased. *)
Definition trim_token (token : list byte) : list byte :=
  match skip_blank token with
  | [] => []
  | c :: rest => c :: strip_trailing_blank rest
  end.

(** [token[0] >= '1' && token[0] <= '9' && token[1] == '.'] *)
Definition has_list_prefix (token : list byte) : bool :=
  (uchar "1"%byte <=? uchar (char_at token 0))%Z
  && (uchar (char_at token 0) <=? uchar "9"%byte)%Z
  && Byte.eqb (char_at token 1) "."%byte.

Inductive token_kind :=
| ListHeader (num : Z) (name : list byte)
| TaskEntry (num tnum : Z) (ttl : list byte)
| Skipped.

(** The [if / else if] of the token loop, on a trimmed token. *)
Definition classify_token (token : list byte) : token_kind :=
  if has_list_prefix token && bool_decide (strchr (drop 2 token) "."%byte = None) then
    ListHeader (uchar (char_at token 0) - uchar "0"%byte) (drop 2 token)
  else if has_list_prefix token then
    match strchr (drop 2 token) "."%byte with
    | Some second_dot =>
        TaskEntry (uchar (char_at token 0) - uchar "0"%byte)
                  (atoi (drop 2 token))
                  (drop (S second_dot) (drop 2 token))
    | None => Skipped
    end
  else Skipped.

(** The [while (token != RT_NULL && task_index < MAX_TASK_COUNT)] loop over
    the tokens [strtok] yields.  [current_list_num] is only logged. *)
Fixpoint parse_tokens (tokens : list (list byte)) (task_index : nat)
    (current_list_name : list byte) (current_list_num : Z)
    (arr : list task_info_t) (count : Z) : list task_info_t * Z :=
  match tokens with
  | [] => (arr, count)
  | token :: rest =>
      if task_index <? MAX_TASK_COUNT then
        match classify_token (trim_token token) with
        | ListHeader num name =>
            parse_tokens rest task_index (rt_strncpy name 63) num arr count
        | TaskEntry num tnum ttl =>
            let task_info :=
              mk_task_info (rt_strncpy ttl 127)
                           (rt_strncpy current_list_name 63)
                           num tnum true in
            parse_tokens rest (S task_index) current_list_name current_list_num
                         (<[task_index := task_info]> arr) (count + 1)%Z
        | Skipped =>
            parse_tokens rest task_index current_list_name current_list_num
                         arr count
        end
      else (arr, count)
  end.

(** The final adjustment of the selection. *)
Definition adjust_selected (st : app_state) : app_state :=
  if (current_task_count st <? selected_task_index st)%Z
     && (0 <? current_task_count st)%Z
  then set_selected st (current_task_count st)
  else if (current_task_count st =? 0)%Z then set_selected st 1
  else st.

(** ** Task display *)

(** [sizeof (display_text)] in [update_task_display]. *)
Definition DISPLAY_TEXT_SIZE : nat := 1536.

(** The text [rt_snprintf] formats for slot [i] with
    ["%d. %s [%s]\n"], [i + 1], the title and the list name. *)
Definition task_line (i : nat) (task : task_info_t) : list byte :=
  format_int (Z.of_nat i + 1) ++ bytes ". " ++ title task ++ bytes " ["
    ++ list_name task ++ bytes "]" ++ ["010"%byte].

(** The [for] loop of [update_task_display] from slot [i] on, over the
    slots it visits; [text] is the string in [display_text], [pos] the
    value of [pos].

    [rt_snprintf (display_text + pos, sizeof (display_text) - pos, ...)]
    returns the length of the whole formatted line, also when it stores
    less.  With [pos] below the size it stores, at [pos], what fits before
    the last element of the array, and the terminator.  With [pos] equal to
    the size it is given a size of 0 and stores nothing.  With [pos] above
    the size, the size wraps around as a [rt_size_t] and the line is stored
    from [display_text + pos] on, past the array. *)
Fixpoint display_lines (slots : list task_info_t) (i : nat) (text : list byte)
    (pos : nat) : outcome (list byte) :=
  match slots with
  | [] => Done text
  | task :: rest =>
      if is_valid task then
        if DISPLAY_TEXT_SIZE <? pos then OutOfBounds
        else
          let line := task_line i task in
          display_lines rest (S i)
                        (text ++ take (DISPLAY_TEXT_SIZE - pos - 1) line)
                        (pos + length line)
      else display_lines rest (S i) text pos
  end.

(** [update_task_display ()].  [task_label] tells whether
    [guider_ui.task_label] is set; the result is the text given to
    [lv_label_set_text], [None] when the function returns at its first
    line.  The loop visits the slots below [current_task_count] and below
    [MAX_TASK_COUNT]. *)
Definition update_task_display (task_label : bool) (st : app_state)
  : outcome (option (list byte)) :=
  if negb task_label then Done None
  else
    let slots :=
      take (Z.to_nat (current_task_count st))
           (take MAX_TASK_COUNT (task_info_array st)) in
    match display_lines slots 0 [] 0 with
    | OutOfBounds => OutOfBounds
    | Done text =>
        if (current_task_count st =? 0)%Z
        then Done (Some (bytes "No tasks available" ++ ["010"%byte]
                           ++ bytes "Press GET to load tasks"))
        else Done (Some text)
    end.

(** A state after the display has been refreshed from it. *)
Definition refreshed (task_label : bool) (st : app_state) : outcome app_state :=
  match update_task_display task_label st with
  | OutOfBounds => OutOfBounds
  | Done _ => Done st
  end.

(** ** Task-list parser, whole *)

(** [parse_comma_separated_tasks task_data].  [task_data = None] is a null
    pointer; [alloc_ok] tells whether [rt_malloc] returns a block;
    [task_label] is passed on to [update_task_display].  On the token-loop
    path the display is refreshed before the selection is adjusted.
    [update_selected_index_display] formats one [int] into 16 bytes and
    writes only to its widget. *)
Definition parse_comma_separated_tasks (task_label alloc_ok : bool)
    (task_data : option (list byte)) (st : app_state) : outcome app_state :=
  match task_data with
  | None => refreshed task_label (set_count st 0)
  | Some data =>
      if rt_strlen data =? 0 then refreshed task_label (set_count st 0)
      else
        let cleared :=
          mk_app_state (replicate MAX_TASK_COUNT empty_task) 0
                       (selected_task_index st) in
        if (rt_strcmp data (bytes "NO_TASKS") =? 0)%Z
        then refreshed task_label cleared
        else if negb alloc_ok then Done cleared
        else
          let '(arr, count) :=
            parse_tokens (strtok_all data DATA_DELIMITER) 0 [] 0
                         (task_info_array cleared) 0 in
          match refreshed task_label
                          (mk_app_state arr count (selected_task_index st)) with
          | OutOfBounds => OutOfBounds
          | Done shown => Done (adjust_selected shown)
          end
  end.

(** ** Packet validator and dispatcher *)

Section Dispatcher.
Variable plain_char_signed : bool.

(** [process_esp32_packet packet]: the three rejections, then the dispatch
    on TYPE.  Only the TASKS branch writes to the shared state. *)
Definition process_esp32_packet (task_label alloc_ok : bool)
    (packet : list byte) (st : app_state) : outcome app_state :=
  if negb (bool_decide (strstr packet PKT_START = Some 0)) then Done st
  else if bool_decide (strstr packet PKT_END = None) then Done st
  else
    let type := extract_packet_field packet (bytes "TYPE") 64 in
    let data := extract_packet_field packet (bytes "DATA") 1024 in
    let checksum_str := extract_packet_field packet (bytes "CHECKSUM") 16 in
    let checksum := atoi checksum_str in
    if negb (verify_checksum plain_char_signed type data checksum) then Done st
    else if (rt_strcmp type (bytes "TASKS") =? 0)%Z then
      parse_comma_separated_tasks task_label alloc_ok (Some data) st
    else (* RESULT, ERROR, STATUS, HELP, TEST, unknown type: logged *) Done st.
End Dispatcher.

(** ** Selection buttons *)

Inductive lv_event_code_t := LV_EVENT_PRESSED | LV_EVENT_RELEASED | LV_EVENT_OTHER.

(** [mutex_taken]: whether [rt_mutex_take (ui_mutex, 100)] returns [RT_EOK]. *)
Definition btn_up_event_handler (code : lv_event_code_t) (mutex_taken : bool)
    (st : app_state) : app_state :=
  match code with
  | LV_EVENT_RELEASED =>
      if mutex_taken then
        if (1 <? selected_task_index st)%Z
        then set_selected st (selected_task_index st - 1)
        else st
      else st
  | _ => st
  end.

Definition btn_down_event_handler (code : lv_event_code_t) (mutex_taken : bool)
    (st : app_state) : app_state :=
  match code with
  | LV_EVENT_RELEASED =>
      if mutex_taken then
        if (selected_task_index st <? current_task_count st)%Z
           && (0 <? current_task_count st)%Z
        then set_selected st (selected_task_index st + 1)
        else st
      else st
  | _ => st
  end.

(** ** UART reassembler *)

(** The statics of the receive path.  [uart_rx_buffer] holds the
    [uart_rx_index] bytes stored so far, so [uart_rx_index] is its length;
    the byte after them is always the NUL written at the last store. *)
Record rx_state := mk_rx_state {
  uart_rx_buffer : list byte;
  in_packet : bool
}.

Definition uart_rx_index (st : rx_state) : nat := length (uart_rx_buffer st).

Definition rx_initial : rx_state := mk_rx_state [] false.

(** A message handed to [rt_mq_send]: the text copied into [msg.data] and
    [msg.len]. *)
Record uart_msg_t := mk_uart_msg {
  msg_data : list byte;
  msg_len : nat
}.

(** The C string that starts at the beginning of a memory area: its bytes
    before the first NUL. *)
Fixpoint cstr (mem : list byte) : list byte :=
  match mem with
  | [] => []
  | c :: rest => if Byte.eqb c "000"%byte then [] else c :: cstr rest
  end.

(** The [if (!in_packet)] block, on the buffer after the store. *)
Definition check_packet_start (buf : list byte) : list byte * bool :=
  match strstr (cstr buf) PKT_START with
  | Some offset => (drop offset buf, true)
  | None => (if 100 <? length buf then [] else buf, false)
  end.

(** The [if (in_packet)] block. *)
Definition check_packet_end (buf : list byte)
  : list byte * bool * option uart_msg_t :=
  match strstr (cstr buf) PKT_END with
  | Some pkt_end =>
      let pkt_len := pkt_end + rt_strlen PKT_END in
      let msg := mk_uart_msg (rt_strncpy (cstr buf) pkt_len) pkt_len in
      (if pkt_len <? length buf then drop pkt_len buf else [], false, Some msg)
  | None => (buf, true, None)
  end.

(** One iteration of the [while (rt_device_read (dev, -1, &ch, 1) == 1)]
    loop: the new statics and the message sent, if any. *)
Definition rx_byte (st : rx_state) (ch : byte) : rx_state * option uart_msg_t :=
  if UART_RX_BUFFER_SIZE - 1 <=? uart_rx_index st then (mk_rx_state [] false, None)
  else
    let stored := uart_rx_buffer st ++ [ch] in
    let '(buf, inp) :=
      if in_packet st then (stored, true) else check_packet_start stored in
    if inp then
      let '(buf', inp', sent) := check_packet_end buf in
      (mk_rx_state buf' inp', sent)
    else (mk_rx_state buf false, None).

(** [esp32_uart_rx_callback] over the bytes the device delivers, in order,
    whatever the number of callback invocations they are spread over: the
    final statics and the messages passed to [rt_mq_send].  The send does
    not block; a full queue drops the message after this function has done
    its part. *)
Fixpoint esp32_uart_rx_callback (stream : list byte) (st : rx_state)
  : rx_state * list uart_msg_t :=
  match stream with
  | [] => (st, [])
  | ch :: rest =>
      let '(st1, sent) := rx_byte st ch in
      let '(st2, later) := esp32_uart_rx_callback rest st1 in
      (st2, match sent with Some m => m :: later | None => later end)
  end.

Definition emitted_frames (stream : list byte) : list (list byte) :=
  map msg_data (snd (esp32_uart_rx_callback stream rx_initial)).

(** The highest index of [msg.data] written for a message is [msg_len]
    (the terminator); the array has [UART_MSG_MAX_SIZE] elements. *)
Definition msg_within_bounds (m : uart_msg_t) : bool :=
  msg_len m <? UART_MSG_MAX_SIZE.

(** ** Batch scanning, as the specification words it

    The frames of a whole stream: the first [PKT_START], the first
    [PKT_END] after it, the span from the one through the other; then the
    same on what follows the span. *)
Fixpoint batch_scan_fuel (fuel : nat) (stream : list byte) : list (list byte) :=
  match fuel with
  | 0 => []
  | S fuel' =>
      match strstr stream PKT_START with
      | None => []
      | Some i =>
          let body := drop (i + length PKT_START) stream in
          match strstr body PKT_END with
          | None => []
          | Some e =>
              (PKT_START ++ take (e + length PKT_END) body)
                :: batch_scan_fuel fuel' (drop (e + length PKT_END) body)
          end
      end
  end.

Definition batch_scan (stream : list byte) : list (list byte) :=
  batch_scan_fuel (length stream) stream.

(** ** Runs of the reassembler that stay within its design envelope *)

(** Some non-empty proper prefix of [marker] ends [buf]. *)
Definition ends_with_partial (marker buf : list byte) : bool :=
  existsb (fun k => bytes_eqb (drop (length buf - k) buf) (take k marker)
                    && (k <=? length buf))
          (seq 1 (length marker - 1)).

(** What one byte triggers: the overflow reset, the discard of a buffer
    that ends inside a start marker, a message longer than [msg.data]. *)
Definition overflow_reset (st : rx_state) : bool :=
  UART_RX_BUFFER_SIZE - 1 <=? uart_rx_index st.

Definition discard_cuts_marker (st : rx_state) (ch : byte) : bool :=
  let stored := uart_rx_buffer st ++ [ch] in
  negb (in_packet st)
  && bool_decide (strstr (cstr stored) PKT_START = None)
  && (100 <? length stored)
  && ends_with_partial PKT_START stored.

Definition oversize_message (st : rx_state) (ch : byte) : bool :=
  match snd (rx_byte st ch) with
  | Some m => negb (msg_within_bounds m)
  | None => false
  end.

(** A run over [stream] from [st] in which none of the three happens. *)
Fixpoint undisturbed (stream : list byte) (st : rx_state) : bool :=
  match stream with
  | [] => true
  | ch :: rest =>
      negb (overflow_reset st)
      && negb (discard_cuts_marker st ch)
      && negb (oversize_message st ch)
      && undisturbed rest (fst (rx_byte st ch))
  end.

(** No byte of [s] is NUL. *)
Definition nul_free (s : list byte) : bool :=
  forallb (fun c => negb (Byte.eqb c "000"%byte)) s.

(** ** Vocabulary of the properties *)

(** *** Strings

    [needle] occurs somewhere in [s]. *)
Definition occurs_in (needle s : list byte) : Prop :=
  exists pre post, s = pre ++ needle ++ post.

(** No non-empty proper prefix of [marker] ends [x]. *)
Definition no_partial (marker x : list byte) : Prop :=
  forall k, 1 <= k -> k < length marker -> k <= length x ->
            drop (length x - k) x <> take k marker.

(** *** Checksum

    The sum of the byte values of a string. *)
Fixpoint byte_sum (s : list byte) : Z :=
  match s with
  | [] => 0%Z
  | c :: rest => (uchar c + byte_sum rest)%Z
  end.

(** A title in UTF-8: every byte is above 127. *)
Definition utf8_sample : list byte :=
  ["228"; "187"; "187"; "229"; "138"; "161"]%byte.

(** *** Packets and payloads

    The packet of the wire-format example. *)
Definition example_packet : list byte :=
  bytes "<PKT_START>TYPE:TASKS|DATA:1.Work,1.1.Write report|CHECKSUM:123<PKT_END>".

(** Two lists, three tasks. *)
Definition tasks_payload : list byte :=
  bytes "1.Work,1.1.Write report,2.Home,2.1.Clean,2.2.Cook".

(** One list, five tasks. *)
Definition five_tasks_payload : list byte :=
  bytes "1.Work,1.1.a,1.2.b,1.3.c,1.4.d,1.5.e".

(** A state the panel reaches: five tasks loaded, the down button released
    four times. *)
Definition state_at_fifth : app_state :=
  match parse_comma_separated_tasks true true (Some five_tasks_payload)
                                    initial_state with
  | Done loaded =>
      Nat.iter 4 (btn_down_event_handler LV_EVENT_RELEASED true) loaded
  | OutOfBounds => initial_state
  end.

(** *** Task table

    The selection is within [1, max (count, 1)]. *)
Definition selection_invariant (st : app_state) : Prop :=
  (1 <= selected_task_index st <= Z.max (current_task_count st) 1)%Z.

(** The records of all the task-entry tokens of a token sequence, in token
    order, each under the list name of the last header before it: what the
    token loop would store in a table without a capacity. *)
Fixpoint task_entries (tokens : list (list byte)) (current_list_name : list byte)
  : list task_info_t :=
  match tokens with
  | [] => []
  | token :: rest =>
      match classify_token (trim_token token) with
      | ListHeader _ name => task_entries rest (rt_strncpy name 63)
      | TaskEntry num tnum ttl =>
          mk_task_info (rt_strncpy ttl 127) (rt_strncpy current_list_name 63)
                       num tnum true
            :: task_entries rest current_list_name
      | Skipped => task_entries rest current_list_name
      end
  end.

(** One list header and twenty-three task entries. *)
Definition overrun_payload : list byte :=
  bytes "1.Work" ++ concat (replicate 23 (bytes ",1.7.t")).

(** The display loop over [slots] keeps every write inside
    [display_text]. *)
Definition display_fits (slots : list task_info_t) : Prop :=
  display_lines slots 0 [] 0 <> OutOfBounds.

(** The slots the display loop visits in a state. *)
Definition shown_slots (st : app_state) : list task_info_t :=
  take (Z.to_nat (current_task_count st))
       (take MAX_TASK_COUNT (task_info_array st)).

(** One list header with a name of 63 characters and twenty-one task
    entries with titles of 20 characters: 590 bytes. *)
Definition long_lines_payload : list byte :=
  bytes "1." ++ replicate 63 "L"%byte
    ++ concat (replicate 21 (bytes ",1.1." ++ replicate 20 "t"%byte)).

(** *** Validation

    Text in which [atoi] finds no number: after the white space and an
    optional sign there is no digit. *)
Definition unparseable (s : list byte) : bool :=
  match skip_space s with
  | [] => true
  | c :: rest =>
      let digits :=
        if Byte.eqb c "-"%byte || Byte.eqb c "+"%byte then rest else c :: rest in
      match digits with
      | [] => true
      | d :: _ => match digit_val d with None => true | Some _ => false end
      end
  end.

(** The ways a frame fails validation: no start marker at offset 0, no end
    marker, a CHECKSUM field whose number differs from the checksum of
    TYPE and DATA, a CHECKSUM field that is absent or holds no number while
    the checksum of TYPE and DATA is not 0. *)
Inductive rejected (plain_char_signed : bool) (packet : list byte) : Prop :=
| reject_start :
    starts_with PKT_START packet = false ->
    rejected plain_char_signed packet
| reject_end :
    ~ occurs_in PKT_END packet ->
    rejected plain_char_signed packet
| reject_checksum :
    verify_checksum plain_char_signed
      (extract_packet_field packet (bytes "TYPE") 64)
      (extract_packet_field packet (bytes "DATA") 1024)
      (atoi (extract_packet_field packet (bytes "CHECKSUM") 16)) = false ->
    rejected plain_char_signed packet
| reject_no_checksum :
    ~ occurs_in (bytes "CHECKSUM:") packet
    \/ unparseable (extract_packet_field packet (bytes "CHECKSUM") 16) = true ->
    calculate_checksum plain_char_signed
      (rt_snprintf_s_s 1024
         (extract_packet_field packet (bytes "TYPE") 64)
         (extract_packet_field packet (bytes "DATA") 1024)) <> 0%Z ->
    rejected plain_char_signed packet.

(** *** Reassembly

    The frames sent over [stream] from the statics [st]. *)
Definition frames_from (st : rx_state) (stream : list byte) : list (list byte) :=
  map msg_data (snd (esp32_uart_rx_callback stream st)).

(** Batch scanning of what follows a start marker. *)
Definition batch_tail (fuel : nat) (body : list byte) : list (list byte) :=
  match strstr body PKT_END with
  | None => []
  | Some e =>
      (PKT_START ++ take (e + length PKT_END) body)
        :: batch_scan_fuel fuel (drop (e + length PKT_END) body)
  end.

(** No byte of [s] is the first character of the markers. *)
Definition lt_free (s : list byte) : bool :=
  forallb (fun c => negb (Byte.eqb "<"%byte c)) s.

(** 150 bytes of noise, a frame, three bytes of noise, a second frame. *)
Definition noisy_stream : list byte :=
  replicate 150 "x"%byte ++ example_packet ++ bytes "abc" ++ example_packet.

(** A frame of 1120 bytes. *)
Definition oversize_stream : list byte :=
  PKT_START ++ replicate 1100 "A"%byte ++ PKT_END.

(** ** Proof steps

    Enters [rx_byte] past the overflow test, given that it fails. *)
Ltac past_overflow_test Hroom :=
  unfold rx_byte; unfold overflow_reset in Hroom; rewrite Hroom;
  cbn [in_packet uart_rx_buffer].

(** * Properties *)

(** ** Characters and string search *)

Lemma byte_eqb_eq (c d : byte) : Byte.eqb c d = true <-> c = d.
Proof.
  split; [apply Byte.byte_dec_bl | apply Byte.byte_dec_lb].
Qed.

Lemma byte_eqb_refl (c : byte) : Byte.eqb c c = true.
Proof. now apply byte_eqb_eq. Qed.

Lemma bytes_eqb_eq (a b : list byte) : bytes_eqb a b = true <-> a = b.
Proof.
  revert b; induction a as [|x a IH]; intros [|y b]; simpl; try easy.
  rewrite andb_true_iff, byte_eqb_eq, IH.
  split; [intros [-> ->]; reflexivity | intros [= -> ->]; easy].
Qed.

Lemma uchar_range (c : byte) : (0 <= uchar c <= 255)%Z.
Proof.
  unfold uchar. pose proof (Byte.to_N_bounded c). lia.
Qed.

Lemma starts_with_app (needle post : list byte) :
  starts_with needle (needle ++ post) = true.
Proof.
  induction needle as [|p needle IH]; simpl; [reflexivity|].
  now rewrite byte_eqb_refl.
Qed.

Lemma starts_with_inv (needle s : list byte) :
  starts_with needle s = true -> s = needle ++ drop (length needle) s.
Proof.
  revert s; induction needle as [|p needle IH]; intros [|c s]; simpl; try easy.
  rewrite andb_true_iff, byte_eqb_eq. intros [-> H]. f_equal. now apply IH.
Qed.

Lemma starts_with_length (needle s : list byte) :
  starts_with needle s = true -> length needle <= length s.
Proof.
  intros H. apply starts_with_inv in H. rewrite H, length_app. lia.
Qed.

(** Characters past the needle's length do not matter. *)
Lemma starts_with_app_long (needle s post : list byte) :
  length needle <= length s ->
  starts_with needle (s ++ post) = starts_with needle s.
Proof.
  revert s; induction needle as [|p needle IH]; intros [|c s]; simpl; try easy.
  intros H. f_equal. apply IH. lia.
Qed.

(** A needle that matches across the end of [s] has [s] as a prefix. *)
Lemma starts_with_app_short (needle s post : list byte) :
  starts_with needle (s ++ post) = true ->
  length s < length needle ->
  take (length s) needle = s.
Proof.
  revert s; induction needle as [|p needle IH]; intros [|c s]; simpl; try easy.
  rewrite andb_true_iff, byte_eqb_eq. intros [-> H] Hlen.
  f_equal. apply IH; [exact H | lia].
Qed.

Lemma strstr_Some_bound (s needle : list byte) (i : nat) :
  strstr s needle = Some i -> i + length needle <= length s.
Proof.
  revert i; induction s as [|c s IH]; intros i; simpl.
  - destruct needle; simpl; [intros [= <-]; simpl; lia | easy].
  - destruct (starts_with needle (c :: s)) eqn:E.
    + intros [= <-]. apply starts_with_length in E. simpl in E. lia.
    + destruct (strstr s needle) as [j|]; simpl; [|easy].
      intros [= <-]. specialize (IH j eq_refl). lia.
Qed.

Lemma strstr_Some_match (s needle : list byte) (i : nat) :
  strstr s needle = Some i -> starts_with needle (drop i s) = true.
Proof.
  revert i; induction s as [|c s IH]; intros i; simpl.
  - destruct needle; simpl; [intros [= <-]; reflexivity | easy].
  - destruct (starts_with needle (c :: s)) eqn:E.
    + intros [= <-]. exact E.
    + destruct (strstr s needle) as [j|]; simpl; [|easy].
      intros [= <-]. simpl. now apply IH.
Qed.

(** A null result: the needle matches at no offset. *)
Lemma strstr_None_nomatch (s needle : list byte) (j : nat) :
  strstr s needle = None -> starts_with needle (drop j s) = false.
Proof.
  revert j; induction s as [|c s IH]; intros j; simpl.
  - destruct needle; [easy|]. intros _. now rewrite drop_nil.
  - destruct (starts_with needle (c :: s)) eqn:E; [easy|].
    destruct (strstr s needle) eqn:F; simpl; [easy|]. intros _.
    destruct j; simpl; [exact E | now apply IH].
Qed.

Lemma strstr_match_not_None (s needle : list byte) (j : nat) :
  starts_with needle (drop j s) = true -> strstr s needle <> None.
Proof.
  intros H E. now rewrite (strstr_None_nomatch _ _ j E) in H.
Qed.

Lemma strstr_None_iff (s needle : list byte) :
  strstr s needle = None <-> ~ occurs_in needle s.
Proof.
  split.
  - intros E (pre & post & ->).
    pose proof (strstr_None_nomatch _ _ (length pre) E) as H.
    now rewrite drop_app_length, starts_with_app in H.
  - intros H. destruct (strstr s needle) as [i|] eqn:E; [|reflexivity].
    exfalso. apply H. exists (take i s), (drop (length needle) (drop i s)).
    rewrite <- (starts_with_inv _ _ (strstr_Some_match _ _ _ E)).
    now rewrite take_drop.
Qed.

(** A match found in a prefix is the match found in the whole. *)
Lemma strstr_app_found (x post needle : list byte) (i : nat) :
  strstr x needle = Some i -> strstr (x ++ post) needle = Some i.
Proof.
  revert i; induction x as [|c x IH]; intros i; simpl.
  - destruct needle; simpl; [|easy]. intros [= <-]. now destruct post.
  - destruct (starts_with needle (c :: x)) eqn:E.
    + intros [= <-].
      change (c :: x ++ post) with ((c :: x) ++ post).
      rewrite starts_with_app_long, E; [reflexivity|].
      now apply starts_with_length.
    + destruct (strstr x needle) as [j|] eqn:F; simpl; [|easy].
      intros [= <-].
      change (c :: x ++ post) with ((c :: x) ++ post).
      rewrite starts_with_app_long, E.
      * now rewrite (IH j eq_refl).
      * apply strstr_Some_bound in F. simpl. lia.
Qed.

(** A match that appears when one character is stored ends at that
    character. *)
Lemma strstr_snoc_new (x needle : list byte) (c : byte) (i : nat) :
  strstr x needle = None ->
  strstr (x ++ [c]) needle = Some i ->
  i + length needle = length x + 1.
Proof.
  intros Hnone Hsome.
  pose proof (strstr_Some_bound _ _ _ Hsome) as Hb.
  rewrite length_app in Hb; simpl in Hb.
  destruct (decide (i + length needle = length x + 1)) as [|Hne]; [assumption|].
  exfalso.
  pose proof (strstr_Some_match _ _ _ Hsome) as Hm.
  rewrite drop_app_le in Hm by lia.
  rewrite starts_with_app_long in Hm by (rewrite length_drop; lia).
  now rewrite (strstr_None_nomatch _ _ i Hnone) in Hm.
Qed.

Lemma ends_with_partial_false (marker x : list byte) :
  ends_with_partial marker x = false -> no_partial marker x.
Proof.
  unfold ends_with_partial, no_partial. intros H k H1 H2 H3 E.
  assert (existsb
            (fun k => bytes_eqb (drop (length x - k) x) (take k marker)
                      && (k <=? length x))
            (seq 1 (length marker - 1)) = true) as Hex; [|congruence].
  apply existsb_exists. exists k. split.
  - apply in_seq. lia.
  - apply andb_true_iff. split; [now apply bytes_eqb_eq | apply Nat.leb_le; lia].
Qed.

(** Dropping a buffer that holds no marker, and does not end inside one,
    loses no match. *)
Lemma strstr_app_skip (x post marker : list byte) :
  strstr x marker = None ->
  no_partial marker x ->
  strstr (x ++ post) marker = option_map (Nat.add (length x)) (strstr post marker).
Proof.
  induction x as [|c x IH]; intros Hnone Hpart.
  - simpl. now destruct (strstr post marker).
  - assert (starts_with marker ((c :: x) ++ post) = false) as Hhead.
    { destruct (starts_with marker ((c :: x) ++ post)) eqn:E; [|reflexivity].
      exfalso.
      destruct (le_lt_dec (length marker) (length (c :: x))) as [Hle|Hlt].
      - rewrite starts_with_app_long in E by exact Hle.
        now apply (strstr_match_not_None (c :: x) marker 0).
      - apply (Hpart (length (c :: x))); [simpl; lia | exact Hlt | lia |].
        rewrite Nat.sub_diag. simpl drop.
        symmetry. now apply (starts_with_app_short _ _ post). }
    assert (strstr x marker = None) as Hnone'.
    { simpl in Hnone. destruct (starts_with marker (c :: x)); [easy|].
      now destruct (strstr x marker). }
    assert (no_partial marker x) as Hpart'.
    { intros k H1 H2 H3 E. apply (Hpart k H1 H2); [simpl; lia|].
      simpl length. replace (S (length x) - k) with (S (length x - k)) by lia.
      exact E. }
    simpl. simpl in Hhead. rewrite Hhead, (IH Hnone' Hpart').
    now destruct (strstr post marker).
Qed.

(** ** Checksum *)

Lemma byte_sum_bounds (s : list byte) :
  (0 <= byte_sum s <= 255 * Z.of_nat (length s))%Z.
Proof.
  induction s as [|c s IH]; simpl byte_sum; simpl length; [lia|].
  pose proof (uchar_range c). lia.
Qed.

Lemma int_wrap_in_range (z : Z) :
  (INT_MIN <= z <= INT_MAX)%Z -> int_wrap z = z.
Proof.
  unfold int_wrap, INT_MIN, INT_MAX. intros H.
  rewrite Z.mod_small; lia.
Qed.

(** While the running sum stays within [int], the loop adds the byte
    values. *)
Lemma checksum_loop_unsigned (s : list byte) (acc : Z) :
  (0 <= acc)%Z ->
  (acc + 255 * Z.of_nat (length s) <= INT_MAX)%Z ->
  fold_left (fun sum c => int_wrap (sum + char_to_int false c)) s acc
  = (acc + byte_sum s)%Z.
Proof.
  revert acc; induction s as [|c s IH]; intros acc H0 Hmax.
  - simpl. lia.
  - simpl fold_left. simpl byte_sum. simpl length in Hmax.
    pose proof (uchar_range c) as Hc.
    unfold char_to_int at 2. simpl andb. cbv iota.
    rewrite int_wrap_in_range by (unfold INT_MIN; lia).
    rewrite IH by lia. lia.
Qed.

(** C10.  With plain [char] unsigned, as on the Arm target, the checksum of
    a string whose characters sum within [int] is the sum of its byte
    values modulo 256, a value between 0 and 255; bytes above 127 count
    with their value. *)
Theorem calculate_checksum_sum_mod_256 (s : list byte) :
  (255 * Z.of_nat (length s) <= INT_MAX)%Z ->
  calculate_checksum false s = (byte_sum s mod 256)%Z
  /\ (0 <= calculate_checksum false s <= 255)%Z.
Proof.
  intros Hlen. unfold calculate_checksum.
  rewrite checksum_loop_unsigned by lia.
  rewrite Z.add_0_l. pose proof (byte_sum_bounds s) as Hs.
  rewrite Z.rem_mod_nonneg by lia.
  split; [reflexivity|].
  assert (0 <= byte_sum s mod 256 < 256)%Z by (apply Z.mod_pos_bound; lia).
  lia.
Qed.

Lemma calculate_checksum_sum_mod_256_witness :
  (255 * Z.of_nat (length utf8_sample) <= INT_MAX)%Z
  /\ calculate_checksum false utf8_sample = (byte_sum utf8_sample mod 256)%Z
  /\ (0 <= calculate_checksum false utf8_sample <= 255)%Z.
Proof.
  split.
  - unfold INT_MAX. simpl. lia.
  - apply (calculate_checksum_sum_mod_256 utf8_sample).
    unfold INT_MAX. simpl. lia.
Defined.

(** Where plain [char] is signed the same loop leaves the range. *)
Remark calculate_checksum_signed_char :
  calculate_checksum true ["255"%byte] = (-1)%Z.
Proof. reflexivity. Qed.

(** C5, as stated: a type and a data string longer together than the
    scratch buffer of [verify_checksum] do not verify against the checksum
    of their concatenation. *)
Lemma verify_checksum_roundtrip_counterexample :
  verify_checksum false (bytes "T") (replicate 1023 "A"%byte)
    (calculate_checksum false (bytes "T" ++ replicate 1023 "A"%byte))
  = false.
Proof. vm_compute. reflexivity. Qed.

(** C5, amended.  When type and data fit together in the 1024-byte scratch
    buffer (at most 1023 characters), the checksum of their concatenation
    verifies. *)
Theorem verify_checksum_roundtrip (plain_char_signed : bool)
    (type data : list byte) :
  length type + length data <= 1023 ->
  verify_checksum plain_char_signed type data
    (calculate_checksum plain_char_signed (type ++ data)) = true.
Proof.
  intros Hlen. unfold verify_checksum, rt_snprintf_s_s.
  rewrite take_ge by (rewrite length_app; simpl; lia).
  apply Z.eqb_refl.
Qed.

Lemma verify_checksum_roundtrip_witness :
  length (bytes "TASKS") + length (bytes "1.Work") <= 1023
  /\ verify_checksum false (bytes "TASKS") (bytes "1.Work")
       (calculate_checksum false (bytes "TASKS" ++ bytes "1.Work")) = true.
Proof.
  split.
  - simpl. lia.
  - apply (verify_checksum_roundtrip false (bytes "TASKS") (bytes "1.Work")).
    simpl. lia.
Defined.

(** ** Field extraction *)

Lemma extract_absent (packet field_name : list byte) (max_len : nat) :
  length field_name <= 30 ->
  ~ occurs_in (field_name ++ bytes ":") packet ->
  extract_packet_field packet field_name max_len = [].
Proof.
  intros Hlen Habs. unfold extract_packet_field, rt_snprintf_s_colon.
  rewrite take_ge by (rewrite length_app; simpl; lia).
  apply strstr_None_iff in Habs. now rewrite Habs.
Qed.

(** C9.  On the example packet the TYPE field is [TASKS] and the DATA field
    is [1.Work,1.1.Write report]; and whenever the text [<field_name>:]
    (for a name that fits the 32-byte search buffer) occurs nowhere in a
    packet, the extracted text is empty. *)
Theorem extract_packet_field_contract :
  extract_packet_field example_packet (bytes "TYPE") 64 = bytes "TASKS"
  /\ extract_packet_field example_packet (bytes "DATA") 1024
     = bytes "1.Work,1.1.Write report"
  /\ (forall (packet field_name : list byte) (max_len : nat),
         length field_name <= 30 ->
         ~ occurs_in (field_name ++ bytes ":") packet ->
         extract_packet_field packet field_name max_len = []).
Proof.
  split; [vm_compute; reflexivity|].
  split; [vm_compute; reflexivity|].
  exact extract_absent.
Qed.

Lemma extract_packet_field_contract_witness :
  length (bytes "PRIORITY") <= 30
  /\ ~ occurs_in (bytes "PRIORITY" ++ bytes ":") example_packet
  /\ extract_packet_field example_packet (bytes "PRIORITY") 16 = [].
Proof.
  assert (~ occurs_in (bytes "PRIORITY" ++ bytes ":") example_packet) as Habs.
  { apply strstr_None_iff. vm_compute. reflexivity. }
  split; [simpl; lia|]. split; [exact Habs|].
  apply (proj2 (proj2 extract_packet_field_contract));
    [simpl; lia | exact Habs].
Defined.

(** ** Task-list parser *)

Lemma adjust_selected_table (st : app_state) :
  task_info_array (adjust_selected st) = task_info_array st
  /\ current_task_count (adjust_selected st) = current_task_count st.
Proof.
  unfold adjust_selected.
  destruct (_ && _); [easy|]. destruct (_ =? _)%Z; easy.
Qed.

(** The refresh leaves the state as it is, when it returns. *)
Lemma refreshed_fits (task_label : bool) (st : app_state) :
  display_fits (shown_slots st) -> refreshed task_label st = Done st.
Proof.
  unfold display_fits, shown_slots, refreshed, update_task_display.
  destruct (negb task_label); [reflexivity|].
  destruct (display_lines _ 0 [] 0); [|congruence].
  now destruct (current_task_count st =? 0)%Z.
Qed.

Lemma refreshed_overrun (st : app_state) :
  display_lines (shown_slots st) 0 [] 0 = OutOfBounds ->
  refreshed true st = OutOfBounds.
Proof.
  unfold shown_slots, refreshed, update_task_display. simpl negb. cbv iota.
  now intros ->.
Qed.

(** With no task counted the loop of the display is not entered. *)
Lemma refreshed_empty (task_label : bool) (arr : list task_info_t) (s : Z) :
  refreshed task_label (mk_app_state arr 0 s) = Done (mk_app_state arr 0 s).
Proof. now destruct task_label. Qed.

(** The path through the token loop: a non-empty payload other than
    [NO_TASKS], with the working copy allocated. *)
Lemma parse_tokens_path (task_label : bool) (data : list byte) (st : app_state) :
  (rt_strlen data =? 0) = false ->
  (rt_strcmp data (bytes "NO_TASKS") =? 0)%Z = false ->
  parse_comma_separated_tasks task_label true (Some data) st
  = let parsed :=
      parse_tokens (strtok_all data DATA_DELIMITER) 0 [] 0
                   (replicate MAX_TASK_COUNT empty_task) 0 in
    match refreshed task_label
                    (mk_app_state (fst parsed) (snd parsed)
                                  (selected_task_index st)) with
    | OutOfBounds => OutOfBounds
    | Done shown => Done (adjust_selected shown)
    end.
Proof.
  intros H1 H2. unfold parse_comma_separated_tasks.
  rewrite H1, H2. simpl negb. cbv iota. simpl task_info_array.
  now destruct (parse_tokens _ _ _ _ _ _).
Qed.

(** The [NO_TASKS] path and the empty-payload path return before the
    selection is adjusted. *)
Lemma parse_no_tasks_path (task_label alloc_ok : bool) (st : app_state) :
  parse_comma_separated_tasks task_label alloc_ok (Some (bytes "NO_TASKS")) st
  = Done (mk_app_state (replicate MAX_TASK_COUNT empty_task) 0
                       (selected_task_index st)).
Proof.
  unfold parse_comma_separated_tasks.
  change (rt_strlen (bytes "NO_TASKS") =? 0) with false.
  change (rt_strcmp (bytes "NO_TASKS") (bytes "NO_TASKS") =? 0)%Z with true.
  cbv iota zeta. apply refreshed_empty.
Qed.

Lemma parse_empty_path (task_label alloc_ok : bool) (st : app_state) :
  parse_comma_separated_tasks task_label alloc_ok (Some []) st
  = Done (set_count st 0).
Proof. apply refreshed_empty. Qed.

(** C6.  From any state, the payload
    [1.Work,1.1.Write report,2.Home,2.1.Clean,2.2.Cook] is parsed with
    every write in bounds and leaves three valid records, in order
    (Write report, Work, 1, 1), (Clean, Home, 2, 1) and (Cook, Home, 2, 2),
    every other slot cleared and invalid, and a count of 3. *)
Theorem parse_example_payload (task_label : bool) (st : app_state) :
  exists st',
    parse_comma_separated_tasks task_label true (Some tasks_payload) st = Done st'
    /\ task_info_array st'
       = [ mk_task_info (bytes "Write report") (bytes "Work") 1 1 true;
           mk_task_info (bytes "Clean") (bytes "Home") 2 1 true;
           mk_task_info (bytes "Cook") (bytes "Home") 2 2 true ]
         ++ replicate 17 empty_task
    /\ current_task_count st' = 3%Z.
Proof.
  rewrite parse_tokens_path by (vm_compute; reflexivity).
  cbv zeta.
  assert (parse_tokens (strtok_all tasks_payload DATA_DELIMITER) 0 [] 0
                       (replicate MAX_TASK_COUNT empty_task) 0
          = ([ mk_task_info (bytes "Write report") (bytes "Work") 1 1 true;
               mk_task_info (bytes "Clean") (bytes "Home") 2 1 true;
               mk_task_info (bytes "Cook") (bytes "Home") 2 2 true ]
               ++ replicate 17 empty_task, 3%Z)) as ->
      by (vm_compute; reflexivity).
  cbn [fst snd].
  rewrite refreshed_fits by (vm_compute; discriminate).
  eexists. split; [reflexivity|].
  apply adjust_selected_table.
Qed.

(** C2, on the code.  With five tasks loaded and the fifth selected, the
    payload [NO_TASKS] empties the table and leaves the selection at 5: the
    early return skips the adjustment that the token-loop path ends with. *)
Theorem no_tasks_keeps_selected_index (task_label : bool) :
  current_task_count state_at_fifth = 5%Z
  /\ selected_task_index state_at_fifth = 5%Z
  /\ exists st',
       parse_comma_separated_tasks task_label true (Some (bytes "NO_TASKS"))
                                   state_at_fifth = Done st'
       /\ current_task_count st' = 0%Z
       /\ selected_task_index st' = 5%Z.
Proof.
  split; [vm_compute; reflexivity|]. split; [vm_compute; reflexivity|].
  rewrite parse_no_tasks_path. eexists. split; [reflexivity|].
  split; vm_compute; reflexivity.
Qed.

Lemma selection_invariant_up (code : lv_event_code_t) (taken : bool)
    (st : app_state) :
  selection_invariant st -> selection_invariant (btn_up_event_handler code taken st).
Proof.
  unfold selection_invariant, btn_up_event_handler. intros H.
  destruct code, taken; try exact H.
  destruct (Z.ltb_spec 1 (selected_task_index st)); simpl; lia.
Qed.

Lemma selection_invariant_down (code : lv_event_code_t) (taken : bool)
    (st : app_state) :
  selection_invariant st -> selection_invariant (btn_down_event_handler code taken st).
Proof.
  unfold selection_invariant, btn_down_event_handler. intros H.
  destruct code, taken; try exact H.
  destruct (Z.ltb_spec (selected_task_index st) (current_task_count st));
    destruct (Z.ltb_spec 0 (current_task_count st)); simpl; lia.
Qed.

Lemma parse_tokens_count (tokens : list (list byte)) (task_index : nat)
    (name : list byte) (num : Z) (arr : list task_info_t) (count : Z) :
  (count <= snd (parse_tokens tokens task_index name num arr count))%Z.
Proof.
  revert task_index name num arr count.
  induction tokens as [|token rest IH]; intros; simpl; [lia|].
  destruct (task_index <? MAX_TASK_COUNT); [|simpl; lia].
  destruct (classify_token (trim_token token)); try apply IH.
  etransitivity; [|apply IH]. lia.
Qed.

Lemma selection_invariant_adjust (st : app_state) :
  (0 <= current_task_count st)%Z ->
  (1 <= selected_task_index st)%Z ->
  selection_invariant (adjust_selected st).
Proof.
  unfold selection_invariant, adjust_selected. intros H0 H1.
  destruct (Z.ltb_spec (current_task_count st) (selected_task_index st));
    destruct (Z.ltb_spec 0 (current_task_count st)); simpl;
    try destruct (Z.eqb_spec (current_task_count st) 0); simpl; lia.
Qed.

(** The token-loop path restores the invariant. *)
Lemma selection_invariant_parse_tokens_path (task_label : bool)
    (data : list byte) (st st' : app_state) :
  (rt_strlen data =? 0) = false ->
  (rt_strcmp data (bytes "NO_TASKS") =? 0)%Z = false ->
  selection_invariant st ->
  parse_comma_separated_tasks task_label true (Some data) st = Done st' ->
  selection_invariant st'.
Proof.
  intros H1 H2 Hinv. rewrite parse_tokens_path by assumption. cbv zeta.
  unfold refreshed. destruct (update_task_display _ _); [|discriminate].
  intros [= <-].
  apply selection_invariant_adjust; simpl.
  - apply parse_tokens_count.
  - apply Hinv.
Qed.

(** C3, on the code.  The state with five tasks and the fifth selected
    satisfies the invariant; after the payload [NO_TASKS], and after an
    empty payload, the count is 0 and the selection is still 5, outside
    [1, 1]. *)
Theorem selection_invariant_lost_on_early_return (task_label : bool) :
  selection_invariant state_at_fifth
  /\ (exists st',
         parse_comma_separated_tasks task_label true (Some (bytes "NO_TASKS"))
                                     state_at_fifth = Done st'
         /\ ~ selection_invariant st')
  /\ (exists st',
         parse_comma_separated_tasks task_label true (Some []) state_at_fifth
         = Done st'
         /\ ~ selection_invariant st').
Proof.
  split; [|split].
  - unfold selection_invariant.
    change (selected_task_index state_at_fifth) with 5%Z.
    change (current_task_count state_at_fifth) with 5%Z. lia.
  - rewrite parse_no_tasks_path. eexists. split; [reflexivity|].
    unfold selection_invariant. cbn [selected_task_index current_task_count].
    change (selected_task_index state_at_fifth) with 5%Z. lia.
  - rewrite parse_empty_path. eexists. split; [reflexivity|].
    unfold selection_invariant, set_count.
    cbn [selected_task_index current_task_count].
    change (selected_task_index state_at_fifth) with 5%Z. lia.
Qed.

(** The token loop started on a table whose first slots are [done] and
    whose other slots are cleared: it appends the task entries that still
    fit, leaves the slots after them cleared, and counts what it stored. *)
Lemma parse_tokens_fill (tokens : list (list byte)) :
  forall (done : list task_info_t) (name : list byte) (num count : Z),
    length done <= MAX_TASK_COUNT ->
    parse_tokens tokens (length done) name num
                 (done ++ replicate (MAX_TASK_COUNT - length done) empty_task)
                 count
    = let stored := take (MAX_TASK_COUNT - length done) (task_entries tokens name) in
      (done ++ stored
         ++ replicate (MAX_TASK_COUNT - length done - length stored) empty_task,
       (count + Z.of_nat (length stored))%Z).
Proof.
  induction tokens as [|token rest IH]; intros done name num count Hdone.
  - simpl. rewrite take_nil. simpl. rewrite Nat.sub_0_r, Z.add_0_r. reflexivity.
  - cbn [parse_tokens task_entries].
    destruct (Nat.ltb_spec (length done) MAX_TASK_COUNT) as [Hlt|Hge].
    + destruct (classify_token (trim_token token)) as [hnum hname|tnum0 tnum1 ttl|].
      * apply IH, Hdone.
      * set (rec := mk_task_info (rt_strncpy ttl 127) (rt_strncpy name 63)
                                 tnum0 tnum1 true).
        destruct (MAX_TASK_COUNT - length done) as [|k] eqn:Hk; [lia|].
        rewrite insert_app_r_alt by lia. rewrite Nat.sub_diag. simpl replicate.
        simpl (<[0:=rec]> _).
        specialize (IH (done ++ [rec]) name num (count + 1)%Z).
        rewrite length_app in IH. simpl length in IH.
        replace (MAX_TASK_COUNT - (length done + 1)) with k in IH by lia.
        rewrite <- app_assoc in IH. simpl app in IH.
        rewrite Nat.add_1_r in IH.
        rewrite IH by lia. cbv zeta. simpl take. simpl length.
        rewrite <- app_assoc. simpl.
        f_equal. lia.
      * apply IH, Hdone.
    + replace (MAX_TASK_COUNT - length done) with 0 by lia.
      simpl. rewrite Z.add_0_r. reflexivity.
Qed.

Lemma parse_tokens_cleared (tokens : list (list byte)) :
  parse_tokens tokens 0 [] 0 (replicate MAX_TASK_COUNT empty_task) 0
  = let stored := take MAX_TASK_COUNT (task_entries tokens []) in
    (stored ++ replicate (MAX_TASK_COUNT - length stored) empty_task,
     Z.of_nat (length stored)).
Proof.
  exact (parse_tokens_fill tokens [] [] 0 0 (Nat.le_0_l MAX_TASK_COUNT)).
Qed.

Lemma task_entries_valid (tokens : list (list byte)) (name : list byte) :
  Forall (fun r => is_valid r = true) (task_entries tokens name).
Proof.
  revert name; induction tokens as [|token rest IH]; intros name; simpl;
    [constructor|].
  destruct (classify_token (trim_token token)); try apply IH.
  constructor; [reflexivity | apply IH].
Qed.

(** When the display of the first [MAX_TASK_COUNT] records does not run
    past its buffer, a payload with more task-entry tokens than the table
    has slots fills the table with those records, in token order, and sets
    the count to [MAX_TASK_COUNT]; the remaining tokens have no effect. *)
Lemma parse_capacity_overrun_shown (task_label : bool) (data : list byte)
    (st : app_state) :
  MAX_TASK_COUNT < length (task_entries (strtok_all data DATA_DELIMITER) []) ->
  display_fits
    (take MAX_TASK_COUNT (task_entries (strtok_all data DATA_DELIMITER) [])) ->
  exists st',
    parse_comma_separated_tasks task_label true (Some data) st = Done st'
    /\ task_info_array st'
       = take MAX_TASK_COUNT (task_entries (strtok_all data DATA_DELIMITER) [])
    /\ current_task_count st' = Z.of_nat MAX_TASK_COUNT
    /\ Forall (fun r => is_valid r = true) (task_info_array st').
Proof.
  intros Hmany Hshown.
  assert ((rt_strlen data =? 0) = false) as H1.
  { destruct data; [|reflexivity]. simpl in Hmany. lia. }
  assert ((rt_strcmp data (bytes "NO_TASKS") =? 0)%Z = false) as H2.
  { unfold rt_strcmp. destruct (bytes_eqb data (bytes "NO_TASKS")) eqn:E;
      [|reflexivity].
    apply bytes_eqb_eq in E. subst data. vm_compute in Hmany. lia. }
  rewrite parse_tokens_path by assumption. cbv zeta.
  rewrite parse_tokens_cleared. cbv zeta. cbn [fst snd].
  rewrite length_take_le by lia. rewrite Nat.sub_diag. simpl replicate.
  rewrite app_nil_r.
  rewrite refreshed_fits.
  - eexists. split; [reflexivity|].
    match goal with
    | |- context [adjust_selected ?s] =>
        destruct (adjust_selected_table s) as [-> ->]
    end.
    cbn [task_info_array current_task_count].
    split; [reflexivity|]. split; [reflexivity|].
    apply Forall_take, task_entries_valid.
  - unfold shown_slots. cbn [task_info_array current_task_count].
    rewrite Nat2Z.id, !take_take, !Nat.min_id. exact Hshown.
Qed.

(** C8, on the code.  The payload of 590 bytes with a list name of 63
    characters and twenty-one task entries with titles of 20 characters has
    more task entries than the table has slots.  The token loop stores the
    first twenty records and a count of 20; then [update_task_display],
    with [pos] at 1538 after seventeen lines, formats the eighteenth line
    past the end of [display_text]. *)
Theorem capacity_overrun_display_out_of_bounds (st : app_state) :
  MAX_TASK_COUNT
  < length (task_entries (strtok_all long_lines_payload DATA_DELIMITER) [])
  /\ parse_tokens (strtok_all long_lines_payload DATA_DELIMITER) 0 [] 0
                  (replicate MAX_TASK_COUNT empty_task) 0
     = (take MAX_TASK_COUNT
             (task_entries (strtok_all long_lines_payload DATA_DELIMITER) []),
        Z.of_nat MAX_TASK_COUNT)
  /\ fold_left (fun pos line => pos + length line)
               (imap task_line
                     (take 17 (task_entries
                                 (strtok_all long_lines_payload DATA_DELIMITER) [])))
               0
     = 1538
  /\ parse_comma_separated_tasks true true (Some long_lines_payload) st
     = OutOfBounds.
Proof.
  split; [vm_compute; lia|]. split; [vm_compute; reflexivity|].
  split; [vm_compute; reflexivity|].
  rewrite parse_tokens_path by (vm_compute; reflexivity). cbv zeta.
  now rewrite refreshed_overrun by (vm_compute; reflexivity).
Qed.

(** Twenty-three short task entries are cut to twenty and shown. *)
Example parse_capacity_overrun_short_lines :
  exists st',
    parse_comma_separated_tasks true true (Some overrun_payload) initial_state
    = Done st'
    /\ current_task_count st' = Z.of_nat MAX_TASK_COUNT.
Proof.
  destruct (parse_capacity_overrun_shown true overrun_payload initial_state)
    as (st' & Hdone & _ & Hcount & _).
  - vm_compute. lia.
  - vm_compute. discriminate.
  - exists st'. split; assumption.
Qed.

(** ** Packet validator *)

Lemma strstr_zero_iff (s needle : list byte) :
  strstr s needle = Some 0 <-> starts_with needle s = true.
Proof.
  split.
  - intros H. apply strstr_Some_match in H. exact H.
  - intros H. destruct s as [|c s]; simpl in *; rewrite H; reflexivity.
Qed.

Lemma atoi_unparseable (s : list byte) : unparseable s = true -> atoi s = 0%Z.
Proof.
  unfold unparseable, atoi.
  destruct (skip_space s) as [|c rest]; [reflexivity|].
  destruct (Byte.eqb c "-"%byte) eqn:Em; simpl orb.
  - destruct rest as [|d rest']; [reflexivity|]. simpl.
    destruct (digit_val d); [discriminate | reflexivity].
  - destruct (Byte.eqb c "+"%byte) eqn:Ep.
    + destruct rest as [|d rest']; [reflexivity|]. simpl.
      destruct (digit_val d); [discriminate | reflexivity].
    + simpl. destruct (digit_val c); [discriminate | reflexivity].
Qed.

(** C7.  A frame that fails validation leaves the task table, the count and
    the selection as they were, and nothing is written. *)
Theorem process_rejected_packet_no_effect
    (plain_char_signed task_label alloc_ok : bool)
    (packet : list byte) (st : app_state) :
  rejected plain_char_signed packet ->
  process_esp32_packet plain_char_signed task_label alloc_ok packet st = Done st.
Proof.
  intros Hrej. unfold process_esp32_packet.
  destruct (bool_decide_reflect (strstr packet PKT_START = Some 0)) as [Hs|Hs];
    [|reflexivity].
  destruct (bool_decide_reflect (strstr packet PKT_END = None)) as [He|He];
    [reflexivity|].
  simpl negb. cbv iota.
  destruct Hrej as [Hstart|Hend|Hsum|Habs Hsum].
  - apply strstr_zero_iff in Hs. congruence.
  - apply strstr_None_iff in Hend. congruence.
  - now rewrite Hsum.
  - assert (atoi (extract_packet_field packet (bytes "CHECKSUM") 16) = 0%Z) as ->.
    { destruct Habs as [Habs|Habs].
      - rewrite (extract_absent packet (bytes "CHECKSUM") 16);
          [reflexivity | simpl; lia | exact Habs].
      - now apply atoi_unparseable. }
    unfold verify_checksum.
    destruct (Z.eqb_spec
                (calculate_checksum plain_char_signed
                   (rt_snprintf_s_s 1024
                      (extract_packet_field packet (bytes "TYPE") 64)
                      (extract_packet_field packet (bytes "DATA") 1024))) 0);
      [contradiction | reflexivity].
Qed.

(** The example packet carries CHECKSUM 123; its TYPE and DATA sum to
    another value. *)
Lemma process_rejected_packet_no_effect_witness :
  rejected false example_packet
  /\ process_esp32_packet false true true example_packet state_at_fifth
     = Done state_at_fifth.
Proof.
  assert (rejected false example_packet) as Hrej.
  { apply reject_checksum. vm_compute. reflexivity. }
  split; [exact Hrej|].
  apply (process_rejected_packet_no_effect false true true example_packet
           state_at_fifth Hrej).
Defined.

(** ** UART reassembler *)

Lemma nul_free_app (a b : list byte) :
  nul_free (a ++ b) = nul_free a && nul_free b.
Proof. apply forallb_app. Qed.

Lemma cstr_nul_free (mem : list byte) : nul_free mem = true -> cstr mem = mem.
Proof.
  induction mem as [|c mem IH]; simpl; [reflexivity|].
  rewrite andb_true_iff, negb_true_iff. intros [-> H]. now rewrite IH.
Qed.

(** The end marker does not begin inside the start marker. *)
Lemma strstr_end_after_start (body : list byte) :
  strstr (PKT_START ++ body) PKT_END
  = option_map (Nat.add (length PKT_START)) (strstr body PKT_END).
Proof.
  unfold PKT_START. cbn.
  destruct (strstr body _); reflexivity.
Qed.

Lemma frames_from_cons (st : rx_state) (ch : byte) (rest : list byte) :
  frames_from st (ch :: rest)
  = match snd (rx_byte st ch) with
    | Some m => msg_data m :: frames_from (fst (rx_byte st ch)) rest
    | None => frames_from (fst (rx_byte st ch)) rest
    end.
Proof.
  unfold frames_from. simpl.
  destruct (rx_byte st ch) as [st1 sent]. simpl.
  destruct (esp32_uart_rx_callback rest st1) as [st2 later]. simpl.
  now destruct sent.
Qed.

Lemma batch_scan_fuel_S (fuel : nat) (stream : list byte) :
  batch_scan_fuel (S fuel) stream
  = match strstr stream PKT_START with
    | None => []
    | Some i => batch_tail fuel (drop (i + length PKT_START) stream)
    end.
Proof. reflexivity. Qed.

(** *** The five things one byte can do *)

Section Steps.
Variables (buf : list byte) (ch : byte).
Hypothesis Hroom : overflow_reset (mk_rx_state buf false) = false.
Hypothesis Hnul : nul_free (buf ++ [ch]) = true.

Lemma rx_byte_seek_keep :
  strstr (buf ++ [ch]) PKT_START = None ->
  (100 <? length (buf ++ [ch])) = false ->
  rx_byte (mk_rx_state buf false) ch = (mk_rx_state (buf ++ [ch]) false, None).
Proof using Hroom Hnul.
  intros Hnone Hsmall. past_overflow_test Hroom. unfold check_packet_start.
  rewrite (cstr_nul_free _ Hnul), Hnone, Hsmall. reflexivity.
Qed.

Lemma rx_byte_seek_discard :
  strstr (buf ++ [ch]) PKT_START = None ->
  (100 <? length (buf ++ [ch])) = true ->
  rx_byte (mk_rx_state buf false) ch = (mk_rx_state [] false, None).
Proof using Hroom Hnul.
  intros Hnone Hbig. past_overflow_test Hroom. unfold check_packet_start.
  rewrite (cstr_nul_free _ Hnul), Hnone, Hbig. reflexivity.
Qed.

Lemma rx_byte_seek_found (offset : nat) :
  strstr buf PKT_START = None ->
  strstr (buf ++ [ch]) PKT_START = Some offset ->
  rx_byte (mk_rx_state buf false) ch = (mk_rx_state PKT_START true, None).
Proof using Hroom Hnul.
  intros Hnone Hsome. past_overflow_test Hroom. unfold check_packet_start.
  rewrite (cstr_nul_free _ Hnul), Hsome.
  assert (drop offset (buf ++ [ch]) = PKT_START) as ->.
  { pose proof (strstr_snoc_new _ _ _ _ Hnone Hsome) as Hlen.
    pose proof (starts_with_inv _ _ (strstr_Some_match _ _ _ Hsome)) as Hm.
    rewrite Hm. rewrite (nil_length_inv (drop (length PKT_START) _)).
    - apply app_nil_r.
    - rewrite !length_drop, length_app. change (length [ch]) with 1. lia. }
  reflexivity.
Qed.
End Steps.

Section PacketSteps.
Variables (body : list byte) (ch : byte).
Hypothesis Hroom : overflow_reset (mk_rx_state (PKT_START ++ body) true) = false.
Hypothesis Hnul : nul_free (body ++ [ch]) = true.

Lemma packet_buffer_nul_free : nul_free (PKT_START ++ body ++ [ch]) = true.
Proof using Hnul. rewrite nul_free_app, Hnul. reflexivity. Qed.

Lemma rx_byte_packet_open :
  strstr (body ++ [ch]) PKT_END = None ->
  rx_byte (mk_rx_state (PKT_START ++ body) true) ch
  = (mk_rx_state (PKT_START ++ body ++ [ch]) true, None).
Proof using Hroom Hnul.
  intros Hnone. past_overflow_test Hroom. rewrite <- app_assoc. unfold check_packet_end.
  rewrite (cstr_nul_free _ packet_buffer_nul_free), strstr_end_after_start, Hnone.
  reflexivity.
Qed.

Lemma rx_byte_packet_closed (e : nat) :
  strstr body PKT_END = None ->
  strstr (body ++ [ch]) PKT_END = Some e ->
  rx_byte (mk_rx_state (PKT_START ++ body) true) ch
  = (mk_rx_state [] false,
     Some (mk_uart_msg (PKT_START ++ body ++ [ch])
                       (length (PKT_START ++ body ++ [ch])))).
Proof using Hroom Hnul.
  intros Hnone Hsome. past_overflow_test Hroom. rewrite <- app_assoc. unfold check_packet_end.
  rewrite (cstr_nul_free _ packet_buffer_nul_free), strstr_end_after_start, Hsome.
  cbn [option_map]. cbv iota beta zeta.
  pose proof (strstr_snoc_new _ _ _ _ Hnone Hsome) as Hlen.
  assert (length PKT_START + e + rt_strlen PKT_END
          = length (PKT_START ++ body ++ [ch])) as ->.
  { rewrite !length_app. unfold rt_strlen. change (length [ch]) with 1. lia. }
  rewrite Nat.ltb_irrefl. unfold rt_strncpy. rewrite take_ge by lia.
  reflexivity.
Qed.
End PacketSteps.

(** *** Streaming against batch scanning *)

Lemma undisturbed_cons (ch : byte) (rest : list byte) (st : rx_state) :
  undisturbed (ch :: rest) st = true ->
  overflow_reset st = false
  /\ discard_cuts_marker st ch = false
  /\ undisturbed rest (fst (rx_byte st ch)) = true.
Proof.
  simpl. rewrite !andb_true_iff, !negb_true_iff. tauto.
Qed.

Lemma nul_free_snoc (b : list byte) (ch : byte) (r : list byte) :
  nul_free (b ++ ch :: r) = true ->
  nul_free (b ++ [ch]) = true /\ nul_free r = true.
Proof.
  rewrite !nul_free_app. simpl. rewrite !andb_true_iff. tauto.
Qed.

(** From a seeking state whose buffer holds no start marker, and from a
    state inside a packet whose body holds no end marker, an undisturbed
    run over [r] sends what batch scanning finds in buffer and [r]
    together. *)
Lemma streaming_matches_batch_from (r : list byte) :
  (forall (b : list byte) (fuel : nat),
      nul_free (b ++ r) = true ->
      strstr b PKT_START = None ->
      undisturbed r (mk_rx_state b false) = true ->
      length r <= fuel ->
      frames_from (mk_rx_state b false) r = batch_scan_fuel fuel (b ++ r))
  /\ (forall (body : list byte) (fuel : nat),
         nul_free (body ++ r) = true ->
         strstr body PKT_END = None ->
         undisturbed r (mk_rx_state (PKT_START ++ body) true) = true ->
         length r <= fuel ->
         frames_from (mk_rx_state (PKT_START ++ body) true) r
         = batch_tail fuel (body ++ r)).
Proof.
  induction r as [|ch r [IHseek IHpkt]]; split.
  - intros b fuel _ Hnone _ _. rewrite app_nil_r.
    destruct fuel; [reflexivity|]. now rewrite batch_scan_fuel_S, Hnone.
  - intros body fuel _ Hnone _ _. rewrite app_nil_r.
    unfold batch_tail. now rewrite Hnone.
  - intros b fuel Hnul Hnone Hund Hfuel.
    apply undisturbed_cons in Hund as (Hroom & Hcut & Hund).
    apply nul_free_snoc in Hnul as [Hnul1 Hnulr].
    destruct fuel as [|fuel]; [simpl in Hfuel; lia|].
    assert (length r <= fuel) as Hfuel' by (simpl in Hfuel; lia).
    replace (b ++ ch :: r) with ((b ++ [ch]) ++ r) by (now rewrite <- app_assoc).
    rewrite frames_from_cons.
    destruct (strstr (b ++ [ch]) PKT_START) as [off|] eqn:Hs.
    + rewrite (rx_byte_seek_found b ch Hroom Hnul1 off Hnone Hs) in *.
      cbn [fst snd] in *.
      rewrite batch_scan_fuel_S, (strstr_app_found _ r _ _ Hs).
      pose proof (strstr_snoc_new _ _ _ _ Hnone Hs) as Hlen.
      replace (off + length PKT_START) with (length (b ++ [ch]))
        by (rewrite length_app; change (length [ch]) with 1; lia).
      rewrite drop_app_length.
      specialize (IHpkt [] fuel). rewrite app_nil_r in IHpkt.
      apply IHpkt; [exact Hnulr | reflexivity | exact Hund | exact Hfuel'].
    + destruct (100 <? length (b ++ [ch])) eqn:Hbig.
      * rewrite (rx_byte_seek_discard b ch Hroom Hnul1 Hs Hbig) in *.
        cbn [fst snd] in *.
        assert (no_partial PKT_START (b ++ [ch])) as Hpart.
        { apply ends_with_partial_false.
          unfold discard_cuts_marker in Hcut. cbn [in_packet uart_rx_buffer] in Hcut.
          rewrite (cstr_nul_free _ Hnul1), Hs, Hbig in Hcut.
          exact Hcut. }
        rewrite (IHseek [] (S fuel) Hnulr eq_refl Hund ltac:(lia)).
        cbn [app]. rewrite !batch_scan_fuel_S.
        rewrite (strstr_app_skip _ r _ Hs Hpart).
        destruct (strstr r PKT_START) as [i|]; [|reflexivity].
        cbn [option_map]. rewrite <- Nat.add_assoc, drop_app_add. reflexivity.
      * rewrite (rx_byte_seek_keep b ch Hroom Hnul1 Hs Hbig) in *.
        cbn [fst snd] in *.
        apply IHseek; [|exact Hs | exact Hund | lia].
        rewrite nul_free_app, Hnul1, Hnulr. reflexivity.
  - intros body fuel Hnul Hnone Hund Hfuel.
    apply undisturbed_cons in Hund as (Hroom & _ & Hund).
    apply nul_free_snoc in Hnul as [Hnul1 Hnulr].
    assert (length r <= fuel) as Hfuel' by (simpl in Hfuel; lia).
    replace (body ++ ch :: r) with ((body ++ [ch]) ++ r)
      by (now rewrite <- app_assoc).
    rewrite frames_from_cons.
    destruct (strstr (body ++ [ch]) PKT_END) as [e|] eqn:He.
    + rewrite (rx_byte_packet_closed body ch Hroom Hnul1 e Hnone He) in *.
      cbn [fst snd msg_data] in *.
      unfold batch_tail. rewrite (strstr_app_found _ r _ _ He).
      pose proof (strstr_snoc_new _ _ _ _ Hnone He) as Hlen.
      replace (e + length PKT_END) with (length (body ++ [ch]))
        by (rewrite length_app; change (length [ch]) with 1; lia).
      rewrite take_app_length, drop_app_length.
      f_equal. apply (IHseek [] fuel Hnulr eq_refl Hund Hfuel').
    + rewrite (rx_byte_packet_open body ch Hroom Hnul1 He) in *.
      cbn [fst snd] in *.
      apply IHpkt; [|exact He | exact Hund | exact Hfuel'].
      rewrite nul_free_app, Hnul1, Hnulr. reflexivity.
Qed.

(** C1, as stated: three streams on which the reassembler sends nothing
    although batch scanning finds a frame.  200 bytes of noise before a
    frame: the discard at the 101st stored byte falls on the second
    character of the start marker.  A frame of 2060 bytes: the buffer is
    reset at its 2048th byte.  A NUL byte before a frame: the marker search
    stops at the NUL. *)
Lemma streaming_differs_from_batch :
  (emitted_frames (replicate 200 "x"%byte ++ example_packet) = []
   /\ batch_scan (replicate 200 "x"%byte ++ example_packet) = [example_packet])
  /\ (emitted_frames (PKT_START ++ replicate 2040 "A"%byte ++ PKT_END) = []
      /\ batch_scan (PKT_START ++ replicate 2040 "A"%byte ++ PKT_END)
         = [PKT_START ++ replicate 2040 "A"%byte ++ PKT_END])
  /\ (emitted_frames ("000"%byte :: example_packet) = []
      /\ batch_scan ("000"%byte :: example_packet) = [example_packet]).
Proof.
  repeat split; vm_compute; reflexivity.
Qed.

(** C1, amended.  On a stream without NUL bytes over which the reassembler
    never resets on overflow, never discards a buffer that ends inside a
    start marker and never sends a message longer than [msg.data], the
    frames sent are, in order, the frames batch scanning finds. *)
Theorem streaming_matches_batch (stream : list byte) :
  nul_free stream = true ->
  undisturbed stream rx_initial = true ->
  emitted_frames stream = batch_scan stream.
Proof.
  intros Hnul Hund.
  exact (proj1 (streaming_matches_batch_from stream) [] (length stream)
           Hnul eq_refl Hund (Nat.le_refl _)).
Qed.

Lemma streaming_matches_batch_witness :
  nul_free noisy_stream = true
  /\ undisturbed noisy_stream rx_initial = true
  /\ emitted_frames noisy_stream = batch_scan noisy_stream
  /\ batch_scan noisy_stream = [example_packet; example_packet].
Proof.
  assert (nul_free noisy_stream = true) as Hnul by (vm_compute; reflexivity).
  assert (undisturbed noisy_stream rx_initial = true) as Hund
      by (vm_compute; reflexivity).
  split; [exact Hnul|]. split; [exact Hund|].
  split; [apply (streaming_matches_batch noisy_stream Hnul Hund)|].
  vm_compute. reflexivity.
Defined.

(** The buffer never holds more than [UART_RX_BUFFER_SIZE - 1] bytes, and
    no message is longer than that. *)
Lemma cstr_length (mem : list byte) : length (cstr mem) <= length mem.
Proof.
  induction mem as [|c mem IH]; simpl; [lia|].
  destruct (Byte.eqb c "000"%byte); simpl; lia.
Qed.

Lemma rx_byte_bounds (st : rx_state) (ch : byte) :
  uart_rx_index st <= UART_RX_BUFFER_SIZE - 1 ->
  uart_rx_index (fst (rx_byte st ch)) <= UART_RX_BUFFER_SIZE - 1
  /\ match snd (rx_byte st ch) with
     | Some m => msg_len m <= UART_RX_BUFFER_SIZE - 1
                 /\ length (msg_data m) = msg_len m
     | None => True
     end.
Proof.
  intros Hidx. unfold rx_byte.
  destruct (Nat.leb_spec (UART_RX_BUFFER_SIZE - 1) (uart_rx_index st)) as [Hfull|Hroom];
    [cbn [fst snd]; unfold uart_rx_index; cbn [uart_rx_buffer length];
     split; [lia | exact I]|].
  set (stored := uart_rx_buffer st ++ [ch]).
  assert (length stored <= UART_RX_BUFFER_SIZE - 1) as Hstored.
  { subst stored. rewrite length_app. change (length [ch]) with 1.
    unfold uart_rx_index in Hroom. lia. }
  assert (forall buf, length buf <= UART_RX_BUFFER_SIZE - 1 ->
            let '(buf', inp', sent) := check_packet_end buf in
            uart_rx_index (mk_rx_state buf' inp') <= UART_RX_BUFFER_SIZE - 1
            /\ match sent with
               | Some m => msg_len m <= UART_RX_BUFFER_SIZE - 1
                           /\ length (msg_data m) = msg_len m
               | None => True
               end) as Hend.
  { intros buf Hbuf. unfold check_packet_end.
    destruct (strstr (cstr buf) PKT_END) as [e|] eqn:He.
    - pose proof (strstr_Some_bound _ _ _ He) as Hb.
      pose proof (cstr_length buf) as Hc.
      unfold uart_rx_index, rt_strlen. cbn [uart_rx_buffer msg_len msg_data].
      split; [|split].
      + destruct (_ <? _); [rewrite length_drop; lia | simpl; lia].
      + lia.
      + unfold rt_strncpy. rewrite length_take_le; lia.
    - unfold uart_rx_index. cbn [uart_rx_buffer]. split; [lia | exact I]. }
  destruct (in_packet st).
  - specialize (Hend stored Hstored).
    destruct (check_packet_end stored) as [[buf' inp'] sent]. exact Hend.
  - unfold check_packet_start.
    destruct (strstr (cstr stored) PKT_START) as [off|].
    + specialize (Hend (drop off stored)).
      destruct (check_packet_end (drop off stored)) as [[buf' inp'] sent].
      apply Hend. rewrite length_drop. lia.
    + unfold uart_rx_index. cbn [fst snd uart_rx_buffer].
      split; [|exact I]. destruct (_ <? _); [simpl; lia | exact Hstored].
Qed.

Lemma message_length_bound (stream : list byte) (st : rx_state) :
  uart_rx_index st <= UART_RX_BUFFER_SIZE - 1 ->
  Forall (fun m => msg_len m <= UART_RX_BUFFER_SIZE - 1
                   /\ length (msg_data m) = msg_len m)
         (snd (esp32_uart_rx_callback stream st)).
Proof.
  revert st; induction stream as [|ch rest IH]; intros st Hidx; simpl;
    [constructor|].
  pose proof (rx_byte_bounds st ch Hidx) as [Hnext Hsent].
  destruct (rx_byte st ch) as [st1 sent]. cbn [fst snd] in *.
  specialize (IH st1 Hnext).
  destruct (esp32_uart_rx_callback rest st1) as [st2 later]. cbn [snd] in *.
  destruct sent; [constructor; assumption | exact IH].
Qed.

(** C4, on the code.  The frame of 1120 bytes is sent whole: 1120 characters
    are copied into [msg.data] and the terminator is written at index 1120
    of an array of [UART_MSG_MAX_SIZE] = 1024 elements. *)
Theorem oversize_frame_overruns_message :
  snd (esp32_uart_rx_callback oversize_stream rx_initial)
  = [mk_uart_msg oversize_stream 1120]
  /\ length oversize_stream = 1120
  /\ msg_within_bounds (mk_uart_msg oversize_stream 1120) = false.
Proof.
  repeat split; vm_compute; reflexivity.
Qed.

(** *** Noise, then a frame

    How many bytes of noise may precede a frame: with noise that holds
    neither NUL nor ['<'], the buffer is emptied at every 101st byte, and
    the frame that follows is sent when the ten first characters of its
    start marker still fit under the discard threshold. *)

Lemma rx_callback_app (a b : list byte) (st : rx_state) :
  esp32_uart_rx_callback (a ++ b) st
  = let '(st1, sent1) := esp32_uart_rx_callback a st in
    let '(st2, sent2) := esp32_uart_rx_callback b st1 in
    (st2, sent1 ++ sent2).
Proof.
  revert st; induction a as [|ch a IH]; intros st; simpl.
  - now destruct (esp32_uart_rx_callback b st).
  - destruct (rx_byte st ch) as [st1 sent]. rewrite IH.
    destruct (esp32_uart_rx_callback a st1) as [st2 later].
    destruct (esp32_uart_rx_callback b st2) as [st3 last].
    now destruct sent.
Qed.

Lemma rx_callback_silent (ch : byte) (rest : list byte) (st st1 : rx_state) :
  rx_byte st ch = (st1, None) ->
  esp32_uart_rx_callback (ch :: rest) st = esp32_uart_rx_callback rest st1.
Proof.
  intros H. simpl. rewrite H. now destruct (esp32_uart_rx_callback rest st1).
Qed.

Lemma starts_with_start_head (c : byte) (s : list byte) :
  Byte.eqb "<"%byte c = false -> starts_with PKT_START (c :: s) = false.
Proof.
  intros H. change PKT_START with ("<"%byte :: bytes "PKT_START>").
  cbn [starts_with]. now rewrite H.
Qed.

Lemma strstr_lt_free_partial (b : list byte) (k : nat) :
  lt_free b = true -> k <= 10 ->
  strstr (b ++ take k PKT_START) PKT_START = None.
Proof.
  intros Hb Hk. induction b as [|c b IH].
  - do 11 (destruct k as [|k]; [vm_compute; reflexivity|]). lia.
  - simpl in Hb. apply andb_true_iff in Hb as [Hc Hb].
    apply negb_true_iff in Hc.
    change ((c :: b) ++ take k PKT_START) with (c :: (b ++ take k PKT_START)).
    cbn [strstr]. rewrite (starts_with_start_head _ _ Hc), (IH Hb). reflexivity.
Qed.

Lemma strstr_lt_free_whole (b : list byte) :
  lt_free b = true -> strstr (b ++ PKT_START) PKT_START = Some (length b).
Proof.
  intros Hb. induction b as [|c b IH].
  - vm_compute. reflexivity.
  - simpl in Hb. apply andb_true_iff in Hb as [Hc Hb].
    apply negb_true_iff in Hc.
    change ((c :: b) ++ PKT_START) with (c :: (b ++ PKT_START)).
    cbn [strstr]. rewrite (starts_with_start_head _ _ Hc), (IH Hb). reflexivity.
Qed.

Lemma nul_free_take (k : nat) (s : list byte) :
  nul_free s = true -> nul_free (take k s) = true.
Proof.
  revert k; induction s as [|c s IH]; intros [|k]; simpl; try easy.
  rewrite !andb_true_iff. intros [Hc Hs]. auto.
Qed.

Lemma nul_free_drop (k : nat) (s : list byte) :
  nul_free s = true -> nul_free (drop k s) = true.
Proof.
  revert k; induction s as [|c s IH]; intros [|k]; simpl; try easy.
  rewrite !andb_true_iff. intros [Hc Hs]. auto.
Qed.

Lemma overflow_reset_short (buf : list byte) (inp : bool) :
  length buf < UART_RX_BUFFER_SIZE - 1 ->
  overflow_reset (mk_rx_state buf inp) = false.
Proof.
  intros H. unfold overflow_reset, uart_rx_index. cbn [uart_rx_buffer].
  now apply Nat.leb_gt.
Qed.

(** The start marker, received in a seeking state whose buffer is short
    enough. *)
Lemma rx_start_marker_from (b rest : list byte) (j : nat) :
  nul_free b = true -> lt_free b = true -> length b <= 90 -> j <= 10 ->
  esp32_uart_rx_callback (drop (10 - j) PKT_START ++ rest)
                         (mk_rx_state (b ++ take (10 - j) PKT_START) false)
  = esp32_uart_rx_callback rest (mk_rx_state PKT_START true).
Proof.
  intros Hnul Hlt Hlen.
  assert (forall k, overflow_reset
                      (mk_rx_state (b ++ take k PKT_START) false) = false)
    as Hroom.
  { intros k. apply overflow_reset_short.
    rewrite length_app, length_take. unfold UART_RX_BUFFER_SIZE.
    change (length PKT_START) with 11. lia. }
  induction j as [|j IH]; intros Hj.
  - change (drop (10 - 0) PKT_START) with [">"%byte].
    cbn [app].
    assert (nul_free ((b ++ take (10 - 0) PKT_START) ++ [">"%byte]) = true)
      as Hnul' by (rewrite !nul_free_app, Hnul; reflexivity).
    assert (strstr ((b ++ take (10 - 0) PKT_START) ++ [">"%byte]) PKT_START
            = Some (length b)) as Hsome.
    { rewrite <- app_assoc. exact (strstr_lt_free_whole b Hlt). }
    apply rx_callback_silent.
    exact (rx_byte_seek_found _ _ (Hroom _) Hnul' (length b)
             (strstr_lt_free_partial b _ Hlt (Nat.le_sub_l 10 0)) Hsome).
  - destruct (lookup_lt_is_Some_2 PKT_START (10 - S j)) as [c Hc];
      [change (length PKT_START) with 11; lia|].
    rewrite (drop_S _ _ _ Hc).
    replace (S (10 - S j)) with (10 - j) by lia.
    cbn [app].
    assert (take (10 - j) PKT_START = take (10 - S j) PKT_START ++ [c]) as Htake.
    { replace (10 - j) with (S (10 - S j)) by lia. now apply take_S_r. }
    assert (nul_free ((b ++ take (10 - S j) PKT_START) ++ [c]) = true) as Hnul'.
    { rewrite <- app_assoc, <- Htake, nul_free_app, Hnul.
      now apply nul_free_take. }
    rewrite (rx_callback_silent c _ _ (mk_rx_state (b ++ take (10 - j) PKT_START) false)).
    + apply IH. lia.
    + rewrite Htake, app_assoc.
      apply (rx_byte_seek_keep _ _ (Hroom _) Hnul').
      * rewrite <- app_assoc, <- Htake.
        apply strstr_lt_free_partial; [exact Hlt | lia].
      * apply Nat.ltb_ge. rewrite !length_app, length_take.
        change (length [c]) with 1. lia.
Qed.

(** The rest of a frame, received inside a packet: nothing is sent before
    its last byte, the whole frame at its last byte. *)
Lemma rx_packet_rest (r : list byte) :
  forall x : list byte,
    nul_free (x ++ r) = true ->
    strstr x PKT_END = None ->
    strstr (x ++ r) PKT_END = Some (length (x ++ r) - length PKT_END) ->
    length (PKT_START ++ x ++ r) <= UART_RX_BUFFER_SIZE - 1 ->
    esp32_uart_rx_callback r (mk_rx_state (PKT_START ++ x) true)
    = (mk_rx_state [] false,
       [mk_uart_msg (PKT_START ++ x ++ r) (length (PKT_START ++ x ++ r))]).
Proof.
  induction r as [|ch r IH]; intros x Hnul Hnone Hsome Hlen.
  - rewrite app_nil_r in Hsome. congruence.
  - apply nul_free_snoc in Hnul as [Hnul1 Hnulr].
    assert (overflow_reset (mk_rx_state (PKT_START ++ x) true) = false) as Hroom.
    { apply overflow_reset_short. rewrite !length_app in *. cbn [length] in Hlen. lia. }
    replace (x ++ ch :: r) with ((x ++ [ch]) ++ r) in * by (now rewrite <- app_assoc).
    destruct (strstr (x ++ [ch]) PKT_END) as [e|] eqn:He.
    + cbn [esp32_uart_rx_callback].
      rewrite (rx_byte_packet_closed x ch Hroom Hnul1 e Hnone He).
      pose proof (strstr_snoc_new _ _ _ _ Hnone He) as Hnew.
      rewrite (strstr_app_found _ r _ _ He) in Hsome.
      assert (r = []) as ->.
      { apply nil_length_inv. injection Hsome as Hsome.
        rewrite !length_app in *. change (length [ch]) with 1 in *. change (length PKT_END) with 9 in *. lia. }
      rewrite app_nil_r. reflexivity.
    + rewrite (rx_callback_silent _ _ _ _
                 (rx_byte_packet_open x ch Hroom Hnul1 He)).
      rewrite (IH (x ++ [ch])); [reflexivity | | exact He | exact Hsome | exact Hlen].
      rewrite nul_free_app, Hnul1, Hnulr. reflexivity.
Qed.

(** Noise that holds neither NUL nor ['<'], received in a seeking state:
    nothing is sent, and the buffer is emptied at every 101st byte. *)
Lemma rx_noise (noise : list byte) :
  forall b : list byte,
    nul_free b = true -> lt_free b = true -> length b <= 100 ->
    nul_free noise = true -> lt_free noise = true ->
    exists b',
      esp32_uart_rx_callback noise (mk_rx_state b false)
      = (mk_rx_state b' false, [])
      /\ nul_free b' = true /\ lt_free b' = true
      /\ length b' = (length b + length noise) mod 101.
Proof.
  induction noise as [|ch noise IH]; intros b Hnb Hlb Hlen Hnn Hln.
  - exists b. cbn [esp32_uart_rx_callback length].
    rewrite Nat.add_0_r, Nat.mod_small by lia. auto.
  - simpl in Hnn, Hln.
    apply andb_true_iff in Hnn as [Hnc Hnn]. apply andb_true_iff in Hln as [Hlc Hln].
    assert (nul_free (b ++ [ch]) = true) as Hn1.
    { rewrite nul_free_app, Hnb. simpl. now rewrite Hnc. }
    assert (lt_free (b ++ [ch]) = true) as Hl1.
    { unfold lt_free. rewrite forallb_app. fold (lt_free b). rewrite Hlb.
      simpl. now rewrite Hlc. }
    assert (strstr (b ++ [ch]) PKT_START = None) as Hnone.
    { pose proof (strstr_lt_free_partial (b ++ [ch]) 0 Hl1 ltac:(lia)) as H.
      now rewrite app_nil_r in H. }
    assert (overflow_reset (mk_rx_state b false) = false) as Hroom.
    { apply overflow_reset_short. unfold UART_RX_BUFFER_SIZE. lia. }
    destruct (100 <? length (b ++ [ch])) eqn:Hbig.
    + rewrite (rx_callback_silent _ _ _ _
                 (rx_byte_seek_discard b ch Hroom Hn1 Hnone Hbig)).
      destruct (IH [] eq_refl eq_refl ltac:(simpl; lia) Hnn Hln)
        as (b' & -> & Hb1 & Hb2 & Hb3).
      exists b'. repeat split; try assumption.
      rewrite Hb3. apply Nat.ltb_lt in Hbig.
      rewrite length_app in Hbig. change (length [ch]) with 1 in Hbig.
      simpl length. replace (length b + S (length noise))
        with (length noise + 1 * 101) by lia.
      now rewrite Nat.Div0.mod_add.
    + rewrite (rx_callback_silent _ _ _ _
                 (rx_byte_seek_keep b ch Hroom Hn1 Hnone Hbig)).
      apply Nat.ltb_ge in Hbig.
      destruct (IH (b ++ [ch]) Hn1 Hl1 Hbig Hnn Hln)
        as (b' & -> & Hb1 & Hb2 & Hb3).
      exists b'. repeat split; try assumption.
      rewrite Hb3, length_app. simpl length. f_equal. lia.
Qed.

Lemma strstr_None_app_l (a b needle : list byte) :
  strstr (a ++ b) needle = None -> strstr a needle = None.
Proof.
  intros H. destruct (strstr a needle) as [i|] eqn:E; [|reflexivity].
  rewrite (strstr_app_found _ b _ _ E) in H. discriminate.
Qed.

Lemma strstr_None_app_r (a b needle : list byte) :
  strstr (a ++ b) needle = None -> strstr b needle = None.
Proof.
  rewrite !strstr_None_iff. intros H (pre & post & ->). apply H.
  exists (a ++ pre), post. now rewrite <- app_assoc.
Qed.

(** A stream that holds no start marker sends nothing. *)
Lemma rx_silent_without_start (r : list byte) :
  forall b : list byte,
    nul_free (b ++ r) = true ->
    strstr (b ++ r) PKT_START = None ->
    length b <= 100 ->
    snd (esp32_uart_rx_callback r (mk_rx_state b false)) = [].
Proof.
  induction r as [|ch r IH]; intros b Hnul Hnone Hlen; [reflexivity|].
  apply nul_free_snoc in Hnul as [Hnul1 Hnulr].
  replace (b ++ ch :: r) with ((b ++ [ch]) ++ r) in Hnone
    by (now rewrite <- app_assoc).
  pose proof (strstr_None_app_l _ _ _ Hnone) as Hnone1.
  assert (overflow_reset (mk_rx_state b false) = false) as Hroom.
  { apply overflow_reset_short. unfold UART_RX_BUFFER_SIZE. lia. }
  destruct (100 <? length (b ++ [ch])) eqn:Hbig.
  - rewrite (rx_callback_silent _ _ _ _
               (rx_byte_seek_discard b ch Hroom Hnul1 Hnone1 Hbig)).
    apply IH; [exact Hnulr | exact (strstr_None_app_r _ _ _ Hnone) | simpl; lia].
  - rewrite (rx_callback_silent _ _ _ _
               (rx_byte_seek_keep b ch Hroom Hnul1 Hnone1 Hbig)).
    apply IH; [|exact Hnone | now apply Nat.ltb_ge].
    rewrite nul_free_app, Hnul1, Hnulr. reflexivity.
Qed.

(** The start marker, received in a seeking state whose buffer is too long
    for it: the buffer is discarded inside the marker. *)
Lemma rx_start_marker_cut (b rest : list byte) (m : nat) :
  nul_free b = true -> lt_free b = true ->
  91 <= length b -> length b <= 100 -> m <= 100 - length b ->
  esp32_uart_rx_callback
    (drop (100 - length b - m) PKT_START ++ rest)
    (mk_rx_state (b ++ take (100 - length b - m) PKT_START) false)
  = esp32_uart_rx_callback (drop (101 - length b) PKT_START ++ rest)
                           (mk_rx_state [] false).
Proof.
  intros Hnul Hlt Hlen Hlen'.
  assert (forall k, overflow_reset
                      (mk_rx_state (b ++ take k PKT_START) false) = false)
    as Hroom.
  { intros k. apply overflow_reset_short.
    rewrite length_app, length_take. unfold UART_RX_BUFFER_SIZE.
    change (length PKT_START) with 11. lia. }
  assert (forall k c, PKT_START !! k = Some c -> k <= 9 ->
            nul_free ((b ++ take k PKT_START) ++ [c]) = true
            /\ strstr ((b ++ take k PKT_START) ++ [c]) PKT_START = None)
    as Hstep.
  { intros k c Hc Hk.
    rewrite <- app_assoc, <- (take_S_r _ _ _ Hc). split.
    - rewrite nul_free_app, Hnul. now apply nul_free_take.
    - apply strstr_lt_free_partial; [exact Hlt | lia]. }
  induction m as [|m IH]; intros Hm.
  - rewrite Nat.sub_0_r.
    destruct (lookup_lt_is_Some_2 PKT_START (100 - length b)) as [c Hc];
      [change (length PKT_START) with 11; lia|].
    rewrite (drop_S _ _ _ Hc).
    replace (S (100 - length b)) with (101 - length b) by lia.
    cbn [app]. apply rx_callback_silent.
    destruct (Hstep _ _ Hc ltac:(lia)) as [Hn Hs].
    apply (rx_byte_seek_discard _ _ (Hroom _) Hn Hs).
    apply Nat.ltb_lt. rewrite !length_app, length_take.
    change (length PKT_START) with 11. change (length [c]) with 1. lia.
  - destruct (lookup_lt_is_Some_2 PKT_START (100 - length b - S m)) as [c Hc];
      [change (length PKT_START) with 11; lia|].
    rewrite (drop_S _ _ _ Hc).
    replace (S (100 - length b - S m)) with (100 - length b - m) by lia.
    cbn [app].
    rewrite (rx_callback_silent c _ _
               (mk_rx_state (b ++ take (100 - length b - m) PKT_START) false)).
    + apply IH. lia.
    + replace (100 - length b - m) with (S (100 - length b - S m)) by lia.
      rewrite (take_S_r _ _ _ Hc), app_assoc.
      destruct (Hstep _ _ Hc ltac:(lia)) as [Hn Hs].
      apply (rx_byte_seek_keep _ _ (Hroom _) Hn Hs).
      apply Nat.ltb_ge. rewrite !length_app, length_take.
      change (length PKT_START) with 11. change (length [c]) with 1. lia.
Qed.

(** What follows a cut start marker holds no start marker. *)
Lemma strstr_after_cut (k : nat) (rest : list byte) :
  1 <= k -> strstr rest PKT_START = None ->
  strstr (drop k PKT_START ++ rest) PKT_START = None.
Proof.
  intros Hk Hrest.
  assert (lt_free (drop k PKT_START) = true) as Hlt.
  { destruct k as [|k]; [lia|].
    do 11 (destruct k as [|k]; [vm_compute; reflexivity|]). reflexivity. }
  revert Hlt. generalize (drop k PKT_START) as a.
  induction a as [|c a IH]; intros Hlt; [exact Hrest|].
  simpl in Hlt. apply andb_true_iff in Hlt as [Hc Hlt].
  apply negb_true_iff in Hc.
  change ((c :: a) ++ rest) with (c :: (a ++ rest)).
  cbn [strstr]. rewrite (starts_with_start_head _ _ Hc), (IH Hlt). reflexivity.
Qed.

(** Batch scanning finds the frame after the noise. *)
Lemma batch_scan_noise_frame (noise body : list byte) :
  lt_free noise = true ->
  strstr (body ++ PKT_END) PKT_END = Some (length body) ->
  batch_scan (noise ++ PKT_START ++ body ++ PKT_END)
  = [PKT_START ++ body ++ PKT_END].
Proof.
  intros Hlt Hend. unfold batch_scan.
  destruct (length (noise ++ PKT_START ++ body ++ PKT_END)) as [|fuel] eqn:Hf.
  { rewrite !length_app in Hf. change (length PKT_START) with 11 in Hf. lia. }
  rewrite batch_scan_fuel_S.
  rewrite app_assoc, (strstr_app_found _ _ _ _ (strstr_lt_free_whole noise Hlt)).
  rewrite <- (length_app noise PKT_START), drop_app_length.
  unfold batch_tail. rewrite Hend.
  rewrite <- (length_app body PKT_END), take_ge, drop_all by lia.
  now destruct fuel.
Qed.

(** A frame that fits [msg.data] and holds no second start marker, after
    [n] bytes of such noise: batch scanning finds it; the reassembler sends
    it when [n mod 101 <= 90] and sends nothing otherwise. *)
Theorem frame_after_noise (noise body : list byte) :
  nul_free noise = true -> lt_free noise = true ->
  nul_free body = true ->
  strstr (body ++ PKT_END) PKT_END = Some (length body) ->
  strstr (body ++ PKT_END) PKT_START = None ->
  length (PKT_START ++ body ++ PKT_END) < UART_MSG_MAX_SIZE ->
  batch_scan (noise ++ PKT_START ++ body ++ PKT_END)
  = [PKT_START ++ body ++ PKT_END]
  /\ emitted_frames (noise ++ PKT_START ++ body ++ PKT_END)
     = if length noise mod 101 <=? 90
       then [PKT_START ++ body ++ PKT_END] else [].
Proof.
  intros Hnn Hln Hnb Hend Hstart Hfit.
  split; [now apply batch_scan_noise_frame|].
  unfold emitted_frames, rx_initial. rewrite rx_callback_app.
  destruct (rx_noise noise [] eq_refl eq_refl ltac:(simpl; lia) Hnn Hln)
    as (b & -> & Hb1 & Hb2 & Hb3).
  simpl length in Hb3. rewrite Nat.add_0_l in Hb3.
  assert (length b <= 100) as Hb100.
  { rewrite Hb3. pose proof (Nat.mod_upper_bound (length noise) 101). lia. }
  assert (nul_free (body ++ PKT_END) = true) as Hnf
    by (rewrite nul_free_app, Hnb; reflexivity).
  destruct (Nat.leb_spec (length noise mod 101) 90) as [Hmod|Hmod].
  - pose proof (rx_start_marker_from b (body ++ PKT_END) 10 Hb1 Hb2
                  ltac:(lia) ltac:(lia)) as Hmarker.
    change (drop (10 - 10) PKT_START) with PKT_START in Hmarker.
    change (take (10 - 10) PKT_START) with (@nil byte) in Hmarker.
    rewrite app_nil_r in Hmarker. rewrite Hmarker.
    pose proof (rx_packet_rest (body ++ PKT_END) []) as Hrest.
    rewrite app_nil_r in Hrest. cbn [app] in Hrest.
    rewrite Hrest; [reflexivity | exact Hnf | reflexivity | | ].
    + rewrite Hend. f_equal. rewrite length_app. lia.
    + unfold UART_MSG_MAX_SIZE, UART_RX_BUFFER_SIZE in *. lia.
  - pose proof (rx_start_marker_cut b (body ++ PKT_END) (100 - length b)
                  Hb1 Hb2 ltac:(lia) Hb100 ltac:(lia)) as Hcut.
    replace (100 - length b - (100 - length b)) with 0 in Hcut by lia.
    change (drop 0 PKT_START) with PKT_START in Hcut.
    change (take 0 PKT_START) with (@nil byte) in Hcut.
    rewrite app_nil_r in Hcut. rewrite Hcut.
    pose proof (rx_silent_without_start
                  (drop (101 - length b) PKT_START ++ body ++ PKT_END) []) as Hs.
    cbn [app] in Hs.
    destruct (esp32_uart_rx_callback
                (drop (101 - length b) PKT_START ++ body ++ PKT_END)
                (mk_rx_state [] false)) as [st sent].
    cbn [snd] in *. rewrite Hs; [reflexivity | | | simpl; lia].
    + rewrite nul_free_app, Hnf, andb_true_r.
      now apply nul_free_drop.
    + apply strstr_after_cut; [lia | exact Hstart].
Qed.
